(** * api/proxy.js: a size- and time-shaped forwarding proxy

    A shallow embedding of the edge handler of [api/proxy.js] and of the
    parts of the Web platform it calls ([URL], [URLSearchParams], [Headers],
    [setTimeout], [AbortController], [fetch], [TransformStream], [Response]),
    followed by the properties of the handler.

    Conventions.  JavaScript numbers that count things (bytes, milliseconds,
    status codes) are [N].  A [Uint8Array] chunk is a [list byte].  The
    handler is written in a state-and-exception monad over a per-request
    [World] (clock, pending abort timer, log of platform calls).  The two
    things the platform decides and the handler cannot, namely how a string
    parses as a URL and what the upstream does with a request, are
    parameters of the handler. *)

From stdpp Require Import base strings list gmap.
From Stdlib Require Import NArith Strings.Ascii Strings.Byte DecimalString.

Local Open Scope N_scope.

(** ** Exceptions *)

(** A JavaScript error object, as far as the handler looks at it:
    [e.name] and [e.message]. *)
Record Exn := mkExn { exn_name : string; exn_message : string }.

Definition TypeError (msg : string) : Exn := mkExn "TypeError" msg.
Definition RangeError (msg : string) : Exn := mkExn "RangeError" msg.
Definition Error (msg : string) : Exn := mkExn "Error" msg.

(** What [controller.abort()] (no reason given) makes the signal's reason and
    what a [fetch] bound to that signal rejects with: a DOMException named
    [AbortError]. *)
Definition AbortError : Exn := mkExn "AbortError" "This operation was aborted".

(** ** URL records *)

(** The path of a URL record (URL Standard, 4.1): either an opaque string
    (as in [mailto:a@b] or [data:text/plain,hi]) or a list of segments, kept
    here in its serialised form ([/a/b]). *)
Inductive URLPath :=
| OpaquePath (p : string)
| ListPath (p : string).

(** A URL record.  The query is kept as the list of name-value pairs that the
    URL's [searchParams] object holds; credentials are not modelled. *)
Record URL := mkURL {
  url_scheme : string;
  url_host : option string;
  url_port : option N;
  url_path : URLPath;
  url_query : list (string * string);
  url_fragment : option string
}.

Definition show_N (n : N) : string := NilZero.string_of_uint (N.to_uint n).

(** [url.pathname] (getter): the serialised path. *)
Definition pathname (u : URL) : string :=
  match url_path u with
  | OpaquePath p => p
  | ListPath p => p
  end.

Definition is_ascii_letter (c : ascii) : bool :=
  let n := N_of_ascii c in
  ((65 <=? n) && (n <=? 90)) || ((97 <=? n) && (n <=? 122)).

(** URL Standard, path state: "If url's scheme is "file", url's path is
    empty, and buffer is a Windows drive letter, then replace the second
    code point in buffer with U+003A (:)."  A Windows drive letter is an
    ASCII letter followed by [:] or [|].  On a serialised path: a first
    segment (what stands between the leading [/] and the next [/] or the
    end) that is a letter followed by [|] gets [:] for the [|]. *)
Definition drive_letter_path (value : string) : string :=
  match value with
  | String slash (String letter (String bar rest)) =>
      if Ascii.eqb slash "/" && is_ascii_letter letter && Ascii.eqb bar "|"
         && match rest with
            | EmptyString => true
            | String next _ => Ascii.eqb next "/"
            end
      then String slash (String letter (String ":" rest))
      else value
  | _ => value
  end.

(** [url.pathname = value] (setter).  URL Standard, 6.1: "If this's URL has
    an opaque path, then return"; otherwise the path is emptied and [value]
    is parsed from the path start state.  The handler only ever assigns the
    [pathname] of the inbound URL, an [http] or [https] URL: such a value
    has no dot segment and no backslash left and is percent-encoded, and
    the parse gives it back as it is, but for the drive letter rule of
    [file] URLs. *)
Definition set_pathname (value : string) (u : URL) : URL :=
  match url_path u with
  | OpaquePath _ => u
  | ListPath _ =>
      let value :=
        if String.eqb (url_scheme u) "file" then drive_letter_path value
        else value in
      mkURL (url_scheme u) (url_host u) (url_port u) (ListPath value)
            (url_query u) (url_fragment u)
  end.

(** [url.host] (getter): empty for a null host, else the host followed by
    [:port] when the port is not null (not the scheme's default). *)
Definition host (u : URL) : string :=
  match url_host u with
  | None => ""
  | Some h =>
      match url_port u with
      | None => h
      | Some p => h +:+ ":" +:+ show_N p
      end
  end.

(** [url.searchParams]: the list of the query's pairs. *)
Definition searchParams (u : URL) : list (string * string) := url_query u.

(** Writing through [url.searchParams] updates the URL's query. *)
Definition with_searchParams (q : list (string * string)) (u : URL) : URL :=
  mkURL (url_scheme u) (url_host u) (url_port u) (url_path u) q (url_fragment u).

(** ** URLSearchParams *)

Module USP.

(** [params.get(name)]: the value of the first pair named [name], else
    [null]. *)
Fixpoint get (name : string) (l : list (string * string)) : option string :=
  match l with
  | [] => None
  | (k, v) :: rest => if String.eqb k name then Some v else get name rest
  end.

Definition remove (name : string) (l : list (string * string))
  : list (string * string) :=
  List.filter (fun p => negb (String.eqb (fst p) name)) l.

(** [params.set(name, value)]: "If this's list contains any tuples whose
    name is name, then set the value of the first such tuple to value and
    remove the others.  Otherwise, append a new tuple." *)
Fixpoint set (name value : string) (l : list (string * string))
  : list (string * string) :=
  match l with
  | [] => [(name, value)]
  | (k, v) :: rest =>
      if String.eqb k name then (k, value) :: remove name rest
      else (k, v) :: set name value rest
  end.

(** [params.getAll(name)]: the values of all pairs named [name], in
    order. *)
Definition getAll (name : string) (l : list (string * string)) : list string :=
  List.map snd (List.filter (fun p => String.eqb (fst p) name) l).

(** [params.forEach(f)] for a callback that updates a state [S]: the
    pairs are visited in list order. *)
Definition forEach {S : Type} (f : string -> string -> S -> S)
    (l : list (string * string)) (s : S) : S :=
  List.fold_left (fun acc p => f (snd p) (fst p) acc) l s.

End USP.

(** ** Headers *)

Module Headers.

(** Header names are compared byte-case-insensitively; a [Headers] object
    is modelled by the map from lower-cased name to the (combined) value
    that [get] and iteration show. *)
Definition lower_ascii (c : ascii) : ascii :=
  let n := N_of_ascii c in
  if (65 <=? n) && (n <=? 90) then ascii_of_N (n + 32) else c.

Fixpoint byte_lowercase (s : string) : string :=
  match s with
  | EmptyString => EmptyString
  | String c rest => String (lower_ascii c) (byte_lowercase rest)
  end.

Definition get (name : string) (h : gmap string string) : option string :=
  h !! byte_lowercase name.

Definition set (name value : string) (h : gmap string string)
  : gmap string string :=
  <[byte_lowercase name := value]> h.

Definition delete (name : string) (h : gmap string string)
  : gmap string string :=
  base.delete (byte_lowercase name) h.

(** [new Headers(init)] for an [init] that is a [Headers] object: a copy. *)
Definition copy (h : gmap string string) : gmap string string := h.

End Headers.

(** ** Bodies, requests and responses *)

(** The length of a [Uint8Array] chunk ([chunk.length]). *)
Definition chunk_length (chunk : list byte) : N := N.of_nat (length chunk).

Definition total_length (chunks : list (list byte)) : N :=
  List.fold_right (fun c n => chunk_length c + n) 0 chunks.

(** A chunk of [n] zero bytes. *)
Definition zeros (n : N) : list byte := List.repeat x00 (N.to_nat n).

(** How a body source ends: the upstream closes it, or it breaks with an
    error. *)
Inductive SourceEnd :=
| SourceCloses
| SourceBreaks (e : Exn).

(** A body as its producer emits it: chunks, each with the delay (in ms)
    after the one before, and then the end. *)
Record BodySource := mkSource {
  src_chunks : list (N * list byte);
  src_end : SourceEnd
}.

Definition chunks_of (src : BodySource) : list (list byte) :=
  List.map snd (src_chunks src).

(** What the reader of a [ReadableStream] sees: the chunks it is given, and
    how the stream ends ([StillOpen]: it never closes nor errors). *)
Inductive StreamEnd :=
| Closed
| Errored (e : Exn)
| StillOpen.

Record Readable := mkReadable {
  delivered : list (list byte);
  ending : StreamEnd
}.

Inductive Body :=
| BodyText (text : string)
| BodyStream (readable : Readable).

Record Response := mkResponse {
  resp_status : N;
  resp_statusText : string;
  resp_headers : gmap string string;
  resp_body : Body
}.

Record Request := mkRequest {
  req_url : string;
  req_method : string;
  req_headers : gmap string string;
  req_body : option BodySource
}.

(** What [fetch] resolves with: [response.status], [.statusText],
    [.headers] and [.body] ([None] for a null body). *)
Record UpstreamResponse := mkUpstream {
  up_status : N;
  up_statusText : string;
  up_headers : gmap string string;
  up_body : option BodySource
}.

(** The arguments of one [fetch(url, init)] call.  The handler passes
    [targetUrl.toString()]; the record stands for that string, which the
    platform parses back to the same URL record.  [fc_signal] says whether
    [init.signal] is the signal of the request's abort controller. *)
Record FetchCall := mkFetchCall {
  fc_url : URL;
  fc_method : string;
  fc_headers : gmap string string;
  fc_body : option BodySource;
  fc_redirect : string;
  fc_signal : bool
}.

(** What the upstream does with a call: answer with headers after
    [latency] ms, fail at the network level after [latency] ms, or never
    answer. *)
Inductive Settle :=
| Responds (latency : N) (response : UpstreamResponse)
| Fails (latency : N) (msg : string)
| Hangs.

(** ** The world of one request *)

Inductive Event :=
| EvNewURL (input : string)
| EvSetTimeout (ms : N)
| EvConsoleLog (prefix : string) (u : URL)
| EvFetch (call : FetchCall)
| EvClearTimeout
| EvUnhandledRejection (e : Exn).

(** [now]: the clock, in ms since the request came in.  [deadline]: the time
    at which the pending timer calls [controller.abort()], if one is armed.
    [aborted]: [controller.signal.aborted].  [events]: the platform calls
    made so far, oldest first. *)
Record World := mkWorld {
  now : N;
  deadline : option N;
  aborted : bool;
  events : list Event
}.

Definition World0 : World := mkWorld 0 None false [].

Inductive Outcome (A : Type) :=
| Ret (a : A)
| Throw (e : Exn)
| Pending.
Arguments Ret {A} a.
Arguments Throw {A} e.
Arguments Pending {A}.

(** Computations that read and change the world and either return, throw,
    or wait for ever on a promise that never settles. *)
Definition M (A : Type) : Type := World -> Outcome A * World.

Definition ret {A} (a : A) : M A := fun w => (Ret a, w).

Definition throw {A} (e : Exn) : M A := fun w => (Throw e, w).

Definition bind {A B} (m : M A) (k : A -> M B) : M B :=
  fun w =>
    match m w with
    | (Ret a, w') => k a w'
    | (Throw e, w') => (Throw e, w')
    | (Pending, w') => (Pending, w')
    end.

(** [try { m } catch (e) { h e }] *)
Definition try_catch {A} (m : M A) (h : Exn -> M A) : M A :=
  fun w =>
    match m w with
    | (Throw e, w') => h e w'
    | r => r
    end.

Notation "'let!' x ':=' m 'in' k" := (bind m (fun x => k))
  (at level 10, x name, m at level 100, k at level 200).
Notation "m ';;;' k" := (bind m (fun _ => k))
  (at level 100, k at level 200, right associativity).

Definition emit (ev : Event) : M unit :=
  fun w => (Ret tt, mkWorld (now w) (deadline w) (aborted w) (events w ++ [ev])).

(** The [fetch] calls made so far. *)
Definition fetch_calls (w : World) : list FetchCall :=
  omap (fun ev => match ev with EvFetch call => Some call | _ => None end)
       (events w).

Definition unhandled_rejections (w : World) : list Exn :=
  omap (fun ev => match ev with EvUnhandledRejection e => Some e | _ => None end)
       (events w).

(** [new URL(..)] calls made so far, by their input. *)
Definition url_parses (w : World) : list string :=
  omap (fun ev => match ev with EvNewURL s => Some s | _ => None end)
       (events w).

(** ** Platform calls *)

(** Timers and the abort controller.  The handler arms one timer whose
    callback is [controller.abort()]; [setTimeout] records when it fires,
    [clearTimeout] cancels it. *)
Definition setTimeout_abort (ms : N) : M unit :=
  emit (EvSetTimeout ms) ;;;
  fun w => (Ret tt, mkWorld (now w) (Some (now w + ms)) (aborted w) (events w)).

Definition clearTimeout : M unit :=
  emit EvClearTimeout ;;;
  fun w => (Ret tt, mkWorld (now w) None (aborted w) (events w)).

Definition console_log (prefix : string) (u : URL) : M unit :=
  emit (EvConsoleLog prefix u).

(** Does an armed timer fire before time [t]?  The clock is a logical one:
    it moves only while the handler waits for the upstream, and a timer
    fires exactly when it is due, where a real timer fires no earlier than
    that.  A timer due exactly at [t] races with what happens at [t]; the
    model lets it lose. *)
Definition fires_before (d : option N) (t : N) : bool :=
  match d with
  | Some d => d <? t
  | None => false
  end.

(** The timer fires: the clock is at the deadline, the timer is spent and
    the signal is aborted. *)
Definition fire (w : World) : World :=
  mkWorld (default (now w) (deadline w)) None true (events w).

Definition advance (dt : N) (w : World) : World :=
  mkWorld (now w + dt) (deadline w) (aborted w) (events w).

(** [transformer.transform(chunk, controller)] either calls
    [controller.enqueue] or [controller.error]. *)
Inductive Step :=
| Enqueue (chunk : list byte)
| Fail (e : Exn).

(** A promise that settles. *)
Inductive Promise :=
| Fulfilled
| Rejected (e : Exn).

(** [source.pipeTo(writable)] into a [TransformStream] built from
    [transformer], whose state is [s]: what comes out of the stream's
    readable side, and how the promise of [pipeTo] settles.  Chunks are
    transformed one by one in order.  When the transformer errors the
    stream, the readable side errors with the same error, [pipeTo] rejects
    with it and cancels the source, so no later chunk is read.  When the
    source breaks, or the abort signal fires while the body is still
    flowing (the timer [d] is due before the next chunk arrives), the
    readable side errors likewise.  The default queuing strategy of the
    readable side (high-water mark 0) transforms a chunk only when the
    reader asks for one, so the chunks enqueued before an error have been
    read.  For a source that breaks, the chunks listed are those that reach
    the pipe: what the body still holds unread when it errors is lost with
    it, so a reader that lags gets fewer chunks than the upstream sent. *)
Fixpoint pipeTo {S : Type} (transformer : S -> list byte -> S * Step)
    (d : option N) (clock : N) (s : S)
    (chunks : list (N * list byte)) (fin : SourceEnd) : Readable * Promise :=
  match chunks with
  | [] =>
      match fin with
      | SourceCloses => (mkReadable [] Closed, Fulfilled)
      | SourceBreaks e => (mkReadable [] (Errored e), Rejected e)
      end
  | (dt, chunk) :: rest =>
      if fires_before d (clock + dt)
      then (mkReadable [] (Errored AbortError), Rejected AbortError)
      else
        match transformer s chunk with
        | (_, Fail e) => (mkReadable [] (Errored e), Rejected e)
        | (s', Enqueue out) =>
            let '(r, p) := pipeTo transformer d (clock + dt) s' rest fin in
            (mkReadable (out :: delivered r) (ending r), p)
        end
  end.

(** [promise.catch(() => {})] *)
Definition catch_ignore (p : Promise) : Promise :=
  match p with
  | Rejected _ => Fulfilled
  | Fulfilled => Fulfilled
  end.

(** A promise nobody awaits: a rejection of it is reported by the platform
    as unhandled. *)
Definition detached (p : Promise) : M unit :=
  match p with
  | Rejected e => emit (EvUnhandledRejection e)
  | Fulfilled => ret tt
  end.

(** Fetch Standard: the statuses 101, 103, 204, 205 and 304. *)
Definition null_body_status (status : N) : bool :=
  bool_decide (status ∈ [101; 103; 204; 205; 304]).

Definition dquote : string := String (ascii_of_N 34) EmptyString.

(** [new Response(body, { status, statusText, headers })] with a body that
    is not null.  Fetch Standard, "initialize a response": a status outside
    200..599 throws a [RangeError]; a non-null body with a null body status
    throws a [TypeError].  A string body brings its [Content-Type] when the
    headers have none.  The wording of the two messages differs from one
    runtime to the next (undici, for one, says [Response constructor:
    Invalid response status code 204]); the texts below stand for it, and
    the handler only passes it on. *)
Definition new_Response (body : Body) (status : N) (statusText : string)
    (headers : gmap string string) : M Response :=
  if (status <? 200) || (599 <? status) then
    throw (RangeError ("The status provided (" +:+ show_N status
                       +:+ ") is outside the range [200, 599]."))
  else if null_body_status status then
    throw (TypeError "Response with null body status cannot have body")
  else
    let headers :=
      match body, Headers.get "Content-Type" headers with
      | BodyText _, None =>
          Headers.set "Content-Type" "text/plain;charset=UTF-8" headers
      | _, _ => headers
      end in
    ret (mkResponse status statusText headers body).

(** ** The handler *)

(** [MAX_BYTES = 10 * 1024 * 1024] and [MAX_DURATION_MS = 15000]. *)
Definition MAX_BYTES : N := 10 * 1024 * 1024.
Definition MAX_DURATION_MS : N := 15000.

(** [`Traffic Limit Exceeded: >${MAX_BYTES/1024/1024}MB`] *)
Definition errorMsg : string :=
  "Traffic Limit Exceeded: >" +:+ show_N (MAX_BYTES / 1024 / 1024) +:+ "MB".

(** The [transform] method of the monitoring stream (lines 63-75):
    [downloadedBytes] is the closure's counter, passed in and out. *)
Definition transform (downloadedBytes : N) (chunk : list byte) : N * Step :=
  let downloadedBytes := downloadedBytes + chunk_length chunk in
  if MAX_BYTES <? downloadedBytes
  then (downloadedBytes, Fail (Error errorMsg))
  else (downloadedBytes, Enqueue chunk).

(** [!targetParam]: [null] and the empty string are falsy. *)
Definition falsy (v : option string) : bool :=
  match v with
  | None => true
  | Some s => String.eqb s ""
  end.

(** Lines 28-35: the path of the inbound URL and its query parameters other
    than [target] are put on the target URL. *)
Definition derive_url (url targetUrl : URL) : URL :=
  let targetUrl := set_pathname (pathname url) targetUrl in
  USP.forEach
    (fun value key targetUrl =>
       if negb (String.eqb key "target")
       then with_searchParams (USP.set key value (searchParams targetUrl)) targetUrl
       else targetUrl)
    (searchParams url) targetUrl.

(** Lines 38-41. *)
Definition derive_headers (req : Request) (targetUrl : URL) : gmap string string :=
  let headers := Headers.copy (req_headers req) in
  let headers := Headers.set "Host" (host targetUrl) headers in
  let headers := Headers.delete "x-forwarded-host" headers in
  Headers.delete "x-vercel-id" headers.

(** Lines 49-55: the arguments of the upstream [fetch]. *)
Definition outbound_call (req : Request) (targetUrl : URL) : FetchCall :=
  mkFetchCall targetUrl (req_method req) (derive_headers req targetUrl)
              (req_body req) "follow" true.

Definition missing_target_message : string :=
  "Error: Missing " +:+ dquote +:+ "target" +:+ dquote +:+ " query parameter.".

Section Handler.

(** The platform's URL parser ([inl msg]: failure, reported by [new URL]
    as a [TypeError] with that message) and the upstream. *)
Variable parse : string -> string + URL.
Variable upstream : FetchCall -> Settle.

Definition new_URL (input : string) : M URL :=
  emit (EvNewURL input) ;;;
  match parse input with
  | inl msg => throw (TypeError msg)
  | inr u => ret u
  end.

(** [await fetch(url, init)].  With [init.signal] bound to the abort
    controller, the call rejects with [AbortError] when the timer fires
    before the upstream settles; a network failure rejects with a
    [TypeError]. *)
Definition fetch (call : FetchCall) : M UpstreamResponse :=
  emit (EvFetch call) ;;;
  fun w =>
    let d := if fc_signal call then deadline w else None in
    match upstream call with
    | Responds latency response =>
        if fires_before d (now w + latency) then (Throw AbortError, fire w)
        else (Ret response, advance latency w)
    | Fails latency msg =>
        if fires_before d (now w + latency) then (Throw AbortError, fire w)
        else (Throw (TypeError msg), advance latency w)
    | Hangs =>
        match d with
        | Some _ => (Throw AbortError, fire w)
        | None => (Pending, w)
        end
    end.

(** Lines 61-82: the monitoring stream, and the upstream body piped into
    it when there is one.  The promise of [pipeTo] is given a [catch] and
    left alone.  Without an upstream body nothing is ever written to the
    stream and nothing closes it. *)
Definition monitor (body : option BodySource) : M Readable :=
  let downloadedBytes := 0 in
  match body with
  | Some src =>
      fun w =>
        let '(readable, piped) :=
          pipeTo transform (deadline w) (now w) downloadedBytes
                 (src_chunks src) (src_end src) in
        (detached (catch_ignore piped) ;;; ret readable) w
  | None => ret (mkReadable [] StillOpen)
  end.

Definition handler (req : Request) : M Response :=
  let! url := new_URL (req_url req) in
  let targetParam := USP.get "target" (searchParams url) in
  if falsy targetParam then
    new_Response (BodyText missing_target_message) 400 "" ∅
  else
    try_catch
      (let! targetUrl := new_URL (default "" targetParam) in
       let targetUrl := derive_url url targetUrl in
       let headers := derive_headers req targetUrl in
       setTimeout_abort MAX_DURATION_MS ;;;
       console_log "[Proxy] Forwarding to: " targetUrl ;;;
       let! response :=
         fetch (mkFetchCall targetUrl (req_method req) headers
                            (req_body req) "follow" true) in
       clearTimeout ;;;
       let! readable := monitor (up_body response) in
       new_Response (BodyStream readable) (up_status response)
                    (up_statusText response) (up_headers response))
      (fun e =>
         let msg :=
           if String.eqb (exn_name e) "AbortError"
           then "Connection Timed Out (Policy Limit)"
           else exn_message e in
         new_Response (BodyText ("Proxy Blocked: " +:+ msg)) 502 "" ∅).

End Handler.

(** ** A reference URL parser

    Used for the concrete examples only; the theorems hold for every parser.
    It reads the two shapes [scheme://host[:port][/path][?query][#fragment]]
    and [scheme:opaque-path[?query][#fragment]] and rejects everything else
    (so also [https:host] and an empty host, which [new URL] takes); it does
    no percent-decoding and no case folding, and it keeps a port that is the
    scheme's default.  The examples stay within inputs on which it agrees
    with [new URL]. *)
Module Reference.

Definition is_alpha (c : ascii) : bool :=
  let n := N_of_ascii c in
  ((65 <=? n) && (n <=? 90)) || ((97 <=? n) && (n <=? 122)).

Definition is_digit (c : ascii) : bool :=
  let n := N_of_ascii c in (48 <=? n) && (n <=? 57).

Definition is_scheme_char (c : ascii) : bool :=
  is_alpha c || is_digit c || bool_decide (c ∈ ["+"; "-"; "."]%char).

Fixpoint all_chars (p : ascii -> bool) (s : string) : bool :=
  match s with
  | EmptyString => true
  | String c rest => p c && all_chars p rest
  end.

(** The longest prefix without a character of [stops], and the rest. *)
Fixpoint break (stops : list ascii) (s : string) : string * string :=
  match s with
  | EmptyString => (EmptyString, EmptyString)
  | String c rest =>
      if bool_decide (c ∈ stops) then (EmptyString, s)
      else let '(a, b) := break stops rest in (String c a, b)
  end.

(** The pieces of [s] between occurrences of [sep]. *)
Fixpoint split (sep : ascii) (s : string) : list string :=
  match s with
  | EmptyString => [EmptyString]
  | String c rest =>
      if Ascii.eqb c sep then EmptyString :: split sep rest
      else
        match split sep rest with
        | [] => [String c EmptyString]
        | piece :: pieces => String c piece :: pieces
        end
  end.

Definition tail (s : string) : string :=
  match s with
  | EmptyString => EmptyString
  | String _ rest => rest
  end.

Definition starts_with (c : ascii) (s : string) : bool :=
  match s with
  | EmptyString => false
  | String c' _ => Ascii.eqb c c'
  end.

Definition valid_scheme (s : string) : bool :=
  match s with
  | EmptyString => false
  | String c rest => is_alpha c && all_chars is_scheme_char rest
  end.

Definition special_scheme (s : string) : bool :=
  bool_decide (s ∈ ["http"; "https"; "ws"; "wss"; "ftp"; "file"]).

Fixpoint digits (acc : N) (s : string) : N :=
  match s with
  | EmptyString => acc
  | String c rest => digits (10 * acc + (N_of_ascii c - 48)) rest
  end.

(** [name=value] pieces separated by [&]; empty pieces are skipped. *)
Definition pairs (query : string) : list (string * string) :=
  omap (fun piece =>
          if String.eqb piece "" then None
          else let '(k, v) := break ["="%char] piece in Some (k, tail v))
       (split "&" query).

Definition query_and_fragment (s : string)
  : list (string * string) * option string :=
  let '(q, f) := break ["#"%char] s in
  (if starts_with "?" q then pairs (tail q) else [],
   if starts_with "#" f then Some (tail f) else None).

Definition parse (input : string) : string + URL :=
  let '(scheme, r) := break [":"%char] input in
  if negb (valid_scheme scheme && starts_with ":" r) then inl "Invalid URL"
  else
    let r := tail r in
    if starts_with "/" r && starts_with "/" (tail r) then
      let '(authority, r) := break ["/"; "?"; "#"]%char (tail (tail r)) in
      let '(h, port) := break [":"%char] authority in
      let '(path, r) := break ["?"; "#"]%char r in
      let '(query, fragment) := query_and_fragment r in
      if String.eqb h "" || negb (all_chars is_digit (tail port))
      then inl "Invalid URL"
      else
        inr (mkURL scheme (Some h)
               (if String.eqb (tail port) "" then None
                else Some (digits 0 (tail port)))
               (ListPath (if String.eqb path "" then "/" else path))
               query fragment)
    else if special_scheme scheme then inl "Invalid URL"
    else
      let '(path, r) := break ["?"; "#"]%char r in
      let '(query, fragment) := query_and_fragment r in
      inr (mkURL scheme None None
             (if starts_with "/" path then ListPath path else OpaquePath path)
             query fragment).

End Reference.

(** The handler run on a fresh world. *)
Definition serve (parse : string -> string + URL)
    (upstream : FetchCall -> Settle) (req : Request) : Outcome Response * World :=
  handler parse upstream req World0.

(** The response [new Response(text, { status })] builds. *)
Definition text_response (status : N) (text : string) : Response :=
  mkResponse status "" {["content-type" := "text/plain;charset=UTF-8"]}
             (BodyText text).

(** The platform calls of the handler up to and including the upstream
    [fetch], for an inbound URL [input] whose [target] is [target] and
    derives [targetUrl]. *)
Definition setup_events (req : Request) (target : string) (targetUrl : URL)
  : list Event :=
  [EvNewURL (req_url req); EvNewURL target; EvSetTimeout MAX_DURATION_MS;
   EvConsoleLog "[Proxy] Forwarding to: " targetUrl;
   EvFetch (outbound_call req targetUrl)].

(** What the monitoring stream of [monitor] hands to its reader when the
    world's timer is [d] and its clock [clock]. *)
Definition relayed (d : option N) (clock : N) (body : option BodySource)
  : Readable :=
  match body with
  | Some src => fst (pipeTo transform d clock 0 (src_chunks src) (src_end src))
  | None => mkReadable [] StillOpen
  end.

(** The callback of the [forEach] of lines 31-35, seen on the target's
    pairs alone. *)
Definition copy_param (acc : list (string * string)) (p : string * string)
  : list (string * string) :=
  if negb (String.eqb (fst p) "target") then USP.set (fst p) (snd p) acc
  else acc.

(** * Properties *)

(** ** Running the handler, branch by branch *)

Lemma text_response_built status text :
  (status <? 200) || (599 <? status) = false ->
  null_body_status status = false ->
  forall w, new_Response (BodyText text) status "" ∅ w
            = (Ret (text_response status text), w).
Proof.
  intros Hrange Hnull w. unfold new_Response. rewrite Hrange, Hnull.
  reflexivity.
Qed.

Lemma falsy_false_inv v :
  falsy v = false -> exists t, v = Some t /\ t <> "".
Proof.
  destruct v as [t|]; simpl; [|discriminate].
  intros H. exists t. split; [reflexivity|].
  intros ->. discriminate.
Qed.

Lemma falsy_nonempty t : t <> "" -> falsy (Some t) = false.
Proof.
  intros Ht. simpl. destruct (String.eqb_spec t ""); congruence.
Qed.

Lemma stream_response_built readable status statusText headers :
  (status <? 200) || (599 <? status) = false ->
  null_body_status status = false ->
  forall w, new_Response (BodyStream readable) status statusText headers w
            = (Ret (mkResponse status statusText headers (BodyStream readable)), w).
Proof.
  intros Hrange Hnull w. unfold new_Response. rewrite Hrange, Hnull.
  reflexivity.
Qed.

Lemma catch_ignore_fulfilled p : catch_ignore p = Fulfilled.
Proof. destruct p; reflexivity. Qed.

(** [monitor] leaves the world as it is: the rejection of the pipe, if any,
    is handled. *)
Lemma monitor_run body w :
  monitor body w = (Ret (relayed (deadline w) (now w) body), w).
Proof.
  destruct body as [src|]; simpl; [|reflexivity].
  destruct (pipeTo transform (deadline w) (now w) 0 (src_chunks src) (src_end src))
    as [readable piped].
  rewrite catch_ignore_fulfilled. reflexivity.
Qed.

Lemma new_Response_world body status statusText headers w :
  snd (new_Response body status statusText headers w) = w.
Proof.
  unfold new_Response.
  destruct ((status <? 200) || (599 <? status)); [reflexivity|].
  destruct (null_body_status status); reflexivity.
Qed.

Lemma try_new_Response_world body status statusText headers text w :
  snd (try_catch (new_Response body status statusText headers)
         (fun e => new_Response (BodyText (text e)) 502 "" ∅) w) = w.
Proof.
  unfold try_catch.
  pose proof (new_Response_world body status statusText headers w) as Hw.
  destruct (new_Response body status statusText headers w) as [[resp|e|] w'];
    simpl in Hw; subst w'; reflexivity.
Qed.

Section Branches.

Variable parse : string -> string + URL.
Variable upstream : FetchCall -> Settle.
Variable req : Request.
Variable url : URL.
Hypothesis Hurl : parse (req_url req) = inr url.

(** No usable [target]: the 400 response, after the one [new URL]. *)
Lemma serve_rejected :
  falsy (USP.get "target" (searchParams url)) = true ->
  serve parse upstream req
  = (Ret (text_response 400 missing_target_message),
     mkWorld 0 None false [EvNewURL (req_url req)]).
Proof.
  intros Hfalsy. unfold serve, handler, new_URL, bind, emit, ret. simpl.
  rewrite Hurl, Hfalsy. apply text_response_built; reflexivity.
Qed.

Variable target : string.
Hypothesis Htarget : USP.get "target" (searchParams url) = Some target.
Hypothesis Hnonempty : target <> "".

(** The target does not parse: caught, 502 with the parser's message. *)
Lemma serve_unparsable msg :
  parse target = inl msg ->
  serve parse upstream req
  = (Ret (text_response 502 ("Proxy Blocked: " +:+ msg)),
     mkWorld 0 None false [EvNewURL (req_url req); EvNewURL target]).
Proof.
  intros Hparse.
  unfold serve, handler, new_URL, try_catch, bind, emit, ret, throw. simpl.
  rewrite Hurl, Htarget, (falsy_nonempty _ Hnonempty). simpl.
  rewrite Hparse. simpl. apply text_response_built; reflexivity.
Qed.

Variable targetUrl : URL.
Hypothesis Hparse : parse target = inr targetUrl.

Local Abbreviation call := (outbound_call req (derive_url url targetUrl)).

Ltac run_to_fetch :=
  unfold serve, handler, new_URL, fetch, clearTimeout, setTimeout_abort,
    console_log, try_catch, bind, emit, ret, throw; simpl;
  rewrite Hurl, Htarget, (falsy_nonempty _ Hnonempty); simpl;
  rewrite Hparse; simpl;
  fold (outbound_call req (derive_url url targetUrl));
  rewrite ?N.add_0_l.

(** The timer fires first: caught, 502 with the fixed message; the clock
    stands at the deadline and the signal is aborted. *)
Lemma serve_timed_out :
  match upstream call with
  | Responds latency _ | Fails latency _ => MAX_DURATION_MS < latency
  | Hangs => True
  end ->
  serve parse upstream req
  = (Ret (text_response 502 "Proxy Blocked: Connection Timed Out (Policy Limit)"),
     mkWorld MAX_DURATION_MS None true
             (setup_events req target (derive_url url targetUrl))).
Proof.
  intros Hlate. run_to_fetch.
  destruct (upstream call) as [latency r|latency msg|]; simpl;
    rewrite ?N.add_0_l.
  - apply N.ltb_lt in Hlate. rewrite Hlate. simpl.
    apply text_response_built; reflexivity.
  - apply N.ltb_lt in Hlate. rewrite Hlate. simpl.
    apply text_response_built; reflexivity.
  - apply text_response_built; reflexivity.
Qed.

(** The network fails before the deadline: caught, 502 with the failure's
    message; the timer stays armed. *)
Lemma serve_network_failure latency msg :
  upstream call = Fails latency msg ->
  latency <= MAX_DURATION_MS ->
  serve parse upstream req
  = (Ret (text_response 502 ("Proxy Blocked: " +:+ msg)),
     mkWorld latency (Some MAX_DURATION_MS) false
             (setup_events req target (derive_url url targetUrl))).
Proof.
  intros Hup Hlat. run_to_fetch. rewrite Hup. simpl. rewrite ?N.add_0_l.
  apply N.ltb_ge in Hlat. rewrite Hlat. simpl.
  apply text_response_built; reflexivity.
Qed.

(** The upstream answers before the deadline: the timer is cleared, and
    what remains is the monitoring stream and the response built on it. *)
Lemma serve_responded latency response :
  upstream call = Responds latency response ->
  latency <= MAX_DURATION_MS ->
  serve parse upstream req
  = try_catch
      (new_Response (BodyStream (relayed None latency (up_body response)))
                    (up_status response) (up_statusText response)
                    (up_headers response))
      (fun e => new_Response (BodyText ("Proxy Blocked: " +:+ exn_message e))
                             502 "" ∅)
      (mkWorld latency None false
               (setup_events req target (derive_url url targetUrl)
                ++ [EvClearTimeout])).
Proof.
  intros Hup Hlat. run_to_fetch. rewrite Hup. simpl. rewrite ?N.add_0_l.
  apply N.ltb_ge in Hlat. rewrite Hlat. simpl.
  rewrite monitor_run. simpl. unfold new_Response.
  destruct ((up_status response <? 200) || (599 <? up_status response));
    [reflexivity|].
  destruct (null_body_status (up_status response)); reflexivity.
Qed.

(** The platform calls of a forwarded request, whatever the upstream
    does: the setup, the one [fetch], and [clearTimeout] when the upstream
    has answered in time. *)
Lemma serve_events :
  events (snd (serve parse upstream req))
  = setup_events req target (derive_url url targetUrl)
    ++ match upstream call with
       | Responds latency _ =>
           if latency <=? MAX_DURATION_MS then [EvClearTimeout] else []
       | _ => []
       end.
Proof.
  destruct (upstream call) as [latency response|latency msg|] eqn:Hup.
  - destruct (N.leb_spec latency MAX_DURATION_MS) as [Hle|Hlt].
    + rewrite (serve_responded latency response Hup Hle).
      rewrite try_new_Response_world. reflexivity.
    + rewrite serve_timed_out by (rewrite Hup; exact Hlt).
      reflexivity.
  - destruct (N.leb_spec latency MAX_DURATION_MS) as [Hle|Hlt].
    + rewrite (serve_network_failure latency msg Hup Hle).
      reflexivity.
    + rewrite serve_timed_out by (rewrite Hup; exact Hlt).
      reflexivity.
  - rewrite serve_timed_out by (rewrite Hup; exact I).
    reflexivity.
Qed.

(** Exactly one upstream call is made, with the derived URL and headers. *)
Lemma serve_fetches_once :
  fetch_calls (snd (serve parse upstream req)) = [call].
Proof.
  unfold fetch_calls. rewrite serve_events.
  destruct (upstream call) as [latency response|latency msg|]; try reflexivity.
  destruct (latency <=? MAX_DURATION_MS); reflexivity.
Qed.

End Branches.

(** ** Rejections before any upstream call *)

(** C1.  A request whose query string has no [target] parameter is answered
    with status exactly 400 and a plain-text error body, and no upstream
    [fetch] is made. *)
Theorem missing_target_is_400 parse upstream req url :
  parse (req_url req) = inr url ->
  USP.get "target" (searchParams url) = None ->
  exists resp,
    fst (serve parse upstream req) = Ret resp
    /\ resp_status resp = 400
    /\ resp_body resp = BodyText missing_target_message
    /\ Headers.get "Content-Type" (resp_headers resp)
       = Some "text/plain;charset=UTF-8"
    /\ fetch_calls (snd (serve parse upstream req)) = [].
Proof.
  intros Hurl Hget.
  rewrite (serve_rejected parse upstream req url Hurl)
    by (rewrite Hget; reflexivity).
  eexists. repeat split; reflexivity.
Qed.

(** C1 at [https://proxy.example/foo?x=1]. *)
Lemma missing_target_is_400_witness :
  let req := mkRequest "https://proxy.example/foo?x=1" "GET" ∅ None in
  exists resp,
    fst (serve Reference.parse (fun _ => Hangs) req) = Ret resp
    /\ resp_status resp = 400
    /\ resp_body resp = BodyText missing_target_message
    /\ Headers.get "Content-Type" (resp_headers resp)
       = Some "text/plain;charset=UTF-8"
    /\ fetch_calls (snd (serve Reference.parse (fun _ => Hangs) req)) = [].
Proof.
  intros req.
  eapply (missing_target_is_400 Reference.parse (fun _ => Hangs) req);
    reflexivity.
Defined.

(** C10.  A [target] parameter with the empty string as its value is treated
    as a missing one: the answer is the 400 of the missing-target branch,
    not a 502, and the value is never handed to the URL parser (the only
    [new URL] is that of the inbound URL; no [fetch] is made). *)
Theorem empty_target_is_400 parse upstream req url :
  parse (req_url req) = inr url ->
  USP.get "target" (searchParams url) = Some "" ->
  exists resp,
    fst (serve parse upstream req) = Ret resp
    /\ resp_status resp = 400
    /\ resp_status resp <> 502
    /\ resp_body resp = BodyText missing_target_message
    /\ url_parses (snd (serve parse upstream req)) = [req_url req]
    /\ fetch_calls (snd (serve parse upstream req)) = [].
Proof.
  intros Hurl Hget.
  rewrite (serve_rejected parse upstream req url Hurl)
    by (rewrite Hget; reflexivity).
  eexists. repeat split; try reflexivity. discriminate.
Qed.

(** C10 at [https://proxy.example/foo?target=&x=1]. *)
Lemma empty_target_is_400_witness :
  let req := mkRequest "https://proxy.example/foo?target=&x=1" "GET" ∅ None in
  exists resp,
    fst (serve Reference.parse (fun _ => Hangs) req) = Ret resp
    /\ resp_status resp = 400
    /\ resp_status resp <> 502
    /\ resp_body resp = BodyText missing_target_message
    /\ url_parses (snd (serve Reference.parse (fun _ => Hangs) req))
       = [req_url req]
    /\ fetch_calls (snd (serve Reference.parse (fun _ => Hangs) req)) = [].
Proof.
  intros req.
  eapply (empty_target_is_400 Reference.parse (fun _ => Hangs) req);
    reflexivity.
Defined.

(** C2, as stated, fails for a [target] that is present with an empty value:
    the empty string does not parse as a URL, yet the answer is 400, not
    502. *)
Lemma empty_target_is_not_502 :
  let req := mkRequest "https://proxy.example/foo?target=" "GET" ∅ None in
  exists url msg resp,
    Reference.parse (req_url req) = inr url
    /\ USP.get "target" (searchParams url) = Some ""
    /\ Reference.parse "" = inl msg
    /\ fst (serve Reference.parse (fun _ => Hangs) req) = Ret resp
    /\ resp_status resp = 400
    /\ resp_status resp <> 502.
Proof.
  intros req. do 3 eexists.
  repeat split; try reflexivity. discriminate.
Qed.

(** C2 (amended).  A request whose [target] value is not empty and does not
    parse as an absolute URL is answered with status 502 and the body
    [Proxy Blocked: ] followed by the parser's error message, and no
    upstream [fetch] is made. *)
Theorem unparsable_target_is_502 parse upstream req url target msg :
  parse (req_url req) = inr url ->
  USP.get "target" (searchParams url) = Some target ->
  target <> "" ->
  parse target = inl msg ->
  exists resp,
    fst (serve parse upstream req) = Ret resp
    /\ resp_status resp = 502
    /\ resp_body resp = BodyText ("Proxy Blocked: " +:+ msg)
    /\ fetch_calls (snd (serve parse upstream req)) = [].
Proof.
  intros Hurl Hget Hne Hparse.
  rewrite (serve_unparsable parse upstream req url Hurl target Hget Hne msg Hparse).
  eexists. repeat split; reflexivity.
Qed.

(** C2 (amended) at a target without a scheme. *)
Lemma unparsable_target_is_502_witness :
  let req := mkRequest "https://proxy.example/foo?target=not%20a%20url" "GET" ∅ None in
  exists resp,
    fst (serve Reference.parse (fun _ => Hangs) req) = Ret resp
    /\ resp_status resp = 502
    /\ resp_body resp = BodyText "Proxy Blocked: Invalid URL"
    /\ fetch_calls (snd (serve Reference.parse (fun _ => Hangs) req)) = [].
Proof.
  intros req.
  eapply (unparsable_target_is_502 Reference.parse (fun _ => Hangs) req);
    try reflexivity.
  discriminate.
Defined.

(** ** Deadline *)

(** C8.  The deadline is [MAX_DURATION_MS] = 15000 ms and the upstream
    [fetch] is bound to its signal.  When the signal fires before the
    upstream has responded (the upstream settles later than the deadline, or
    never), the answer is 502 with the fixed body [Proxy Blocked: Connection
    Timed Out (Policy Limit)].  A network fault before the deadline is told
    apart from it: the answer is 502 with the fault's own message. *)
Theorem timeout_is_told_apart parse upstream req url target targetUrl :
  parse (req_url req) = inr url ->
  USP.get "target" (searchParams url) = Some target ->
  target <> "" ->
  parse target = inr targetUrl ->
  let call := outbound_call req (derive_url url targetUrl) in
  let result := serve parse upstream req in
  MAX_DURATION_MS = 15000
  /\ fc_signal call = true
  /\ (match upstream call with
      | Responds latency _ | Fails latency _ => MAX_DURATION_MS < latency
      | Hangs => True
      end ->
      fst result
      = Ret (text_response 502 "Proxy Blocked: Connection Timed Out (Policy Limit)")
      /\ aborted (snd result) = true
      /\ now (snd result) = MAX_DURATION_MS)
  /\ (forall latency msg,
        upstream call = Fails latency msg ->
        latency <= MAX_DURATION_MS ->
        fst result = Ret (text_response 502 ("Proxy Blocked: " +:+ msg))
        /\ aborted (snd result) = false).
Proof.
  intros Hurl Hget Hne Hparse call result.
  split; [reflexivity|]. split; [reflexivity|]. split.
  - intros Hlate. subst result.
    rewrite (serve_timed_out parse upstream req url Hurl target Hget Hne
               targetUrl Hparse Hlate).
    repeat split; reflexivity.
  - intros latency msg Hup Hlat. subst result.
    rewrite (serve_network_failure parse upstream req url Hurl target Hget Hne
               targetUrl Hparse latency msg Hup Hlat).
    split; reflexivity.
Qed.

(** C8 at an upstream that never answers, and at one that refuses the
    connection after 40 ms. *)
Lemma timeout_is_told_apart_witness :
  let req :=
    mkRequest "https://proxy.example/foo?target=https://example.com/bar&x=1"
              "GET" ∅ None in
  fst (serve Reference.parse (fun _ => Hangs) req)
  = Ret (text_response 502 "Proxy Blocked: Connection Timed Out (Policy Limit)")
  /\ fst (serve Reference.parse (fun _ => Fails 40 "connection refused") req)
     = Ret (text_response 502 "Proxy Blocked: connection refused").
Proof.
  intros req. split.
  - refine (proj1 (proj1 (proj2 (proj2
      (timeout_is_told_apart Reference.parse (fun _ => Hangs) req _
         "https://example.com/bar" _ _ _ _ _))) I));
      try reflexivity.
    discriminate.
  - refine (proj1 (proj2 (proj2 (proj2
      (timeout_is_told_apart Reference.parse
         (fun _ => Fails 40 "connection refused") req _
         "https://example.com/bar" _ _ _ _ _))) 40 "connection refused" _ _));
      try reflexivity.
    + discriminate.
    + discriminate.
Defined.

(** ** The derived URL *)

Module USPFacts.

Lemma getAll_cons k v name l :
  USP.getAll name ((k, v) :: l)
  = if String.eqb k name then v :: USP.getAll name l else USP.getAll name l.
Proof. unfold USP.getAll. simpl. destruct (String.eqb k name); reflexivity. Qed.

Lemma getAll_snoc k v name l :
  USP.getAll name (l ++ [(k, v)])
  = USP.getAll name l ++ (if String.eqb k name then [v] else []).
Proof.
  unfold USP.getAll. rewrite List.filter_app, List.map_app. simpl.
  destruct (String.eqb k name); reflexivity.
Qed.

Lemma getAll_remove_same name l : USP.getAll name (USP.remove name l) = [].
Proof.
  induction l as [|[k v] l IH]; [reflexivity|].
  unfold USP.remove in *. simpl.
  destruct (String.eqb k name) eqn:E; simpl; [exact IH|].
  rewrite getAll_cons, E. exact IH.
Qed.

Lemma getAll_remove_other name other l :
  name <> other ->
  USP.getAll other (USP.remove name l) = USP.getAll other l.
Proof.
  intros Hne. induction l as [|[k v] l IH]; [reflexivity|].
  unfold USP.remove in *. simpl.
  destruct (String.eqb_spec k name) as [->|Hk]; simpl.
  - rewrite getAll_cons. destruct (String.eqb_spec name other); [contradiction|].
    exact IH.
  - rewrite !getAll_cons, IH. reflexivity.
Qed.

(** After [set(name, value)] there is exactly one pair named [name], and it
    holds [value]. *)
Lemma getAll_set_same name value l :
  USP.getAll name (USP.set name value l) = [value].
Proof.
  induction l as [|[k v] l IH]; simpl.
  - rewrite getAll_cons, String.eqb_refl. reflexivity.
  - destruct (String.eqb k name) eqn:E.
    + rewrite getAll_cons, E, getAll_remove_same. reflexivity.
    + rewrite getAll_cons, E. exact IH.
Qed.

(** [set(name, value)] leaves the pairs of every other name as they are. *)
Lemma getAll_set_other name value other l :
  name <> other ->
  USP.getAll other (USP.set name value l) = USP.getAll other l.
Proof.
  intros Hne. induction l as [|[k v] l IH]; simpl.
  - rewrite getAll_cons. destruct (String.eqb_spec name other); [contradiction|].
    reflexivity.
  - destruct (String.eqb_spec k name) as [->|Hk].
    + rewrite !getAll_cons.
      destruct (String.eqb_spec name other); [contradiction|].
      apply getAll_remove_other, Hne.
    + rewrite !getAll_cons, IH. reflexivity.
Qed.

End USPFacts.

Lemma derive_url_fold url targetUrl :
  derive_url url targetUrl
  = with_searchParams
      (List.fold_left copy_param (searchParams url) (searchParams targetUrl))
      (set_pathname (pathname url) targetUrl).
Proof.
  unfold derive_url, USP.forEach.
  assert (Hstart : set_pathname (pathname url) targetUrl
                   = with_searchParams (searchParams targetUrl)
                       (set_pathname (pathname url) targetUrl)).
  { unfold set_pathname, with_searchParams, searchParams.
    destruct targetUrl as [? ? ? [?|?] ? ?]; reflexivity. }
  rewrite Hstart at 1.
  generalize (searchParams targetUrl) as acc.
  generalize (set_pathname (pathname url) targetUrl) as u.
  induction (searchParams url) as [|[k v] q IH]; intros u acc; simpl.
  - reflexivity.
  - unfold copy_param at 2. simpl.
    destruct (negb (String.eqb k "target")); [|apply IH].
    change (searchParams (with_searchParams acc u)) with acc.
    change (with_searchParams (USP.set k v acc) (with_searchParams acc u))
      with (with_searchParams (USP.set k v acc) u).
    apply IH.
Qed.

Lemma derive_url_query url targetUrl :
  searchParams (derive_url url targetUrl)
  = List.fold_left copy_param (searchParams url) (searchParams targetUrl).
Proof. rewrite derive_url_fold. reflexivity. Qed.

Lemma derive_url_path url targetUrl :
  url_path (derive_url url targetUrl)
  = url_path (set_pathname (pathname url) targetUrl).
Proof. rewrite derive_url_fold. reflexivity. Qed.

Lemma derive_url_host url targetUrl :
  host (derive_url url targetUrl) = host targetUrl.
Proof.
  rewrite derive_url_fold. unfold host, with_searchParams, set_pathname. simpl.
  destruct (url_path targetUrl); reflexivity.
Qed.

(** C3, as stated, fails for a target whose path is opaque: assigning
    [pathname] does nothing to such a URL, so the call goes to the target's
    own path. *)
Lemma opaque_target_keeps_its_path :
  let req :=
    mkRequest "https://proxy.example/foo?target=data:text/plain,hello"
              "GET" ∅ None in
  exists url targetUrl call,
    Reference.parse (req_url req) = inr url
    /\ USP.get "target" (searchParams url) = Some "data:text/plain,hello"
    /\ Reference.parse "data:text/plain,hello" = inr targetUrl
    /\ fetch_calls (snd (serve Reference.parse (fun _ => Hangs) req)) = [call]
    /\ pathname url = "/foo"
    /\ pathname targetUrl = "text/plain,hello"
    /\ pathname (fc_url call) = "text/plain,hello"
    /\ pathname (fc_url call) <> pathname url.
Proof.
  intros req. do 3 eexists.
  repeat split; try reflexivity. discriminate.
Qed.

(** C3 (amended).  For a well-formed request whose target URL has a path
    that is not opaque and a scheme other than [file] (every [http] and
    [https] URL is such), the upstream call goes to a URL whose path is the
    inbound request's path, whatever the path of the target was. *)
Theorem path_is_inbound_path parse upstream req url target targetUrl p :
  parse (req_url req) = inr url ->
  USP.get "target" (searchParams url) = Some target ->
  target <> "" ->
  parse target = inr targetUrl ->
  url_path targetUrl = ListPath p ->
  url_scheme targetUrl <> "file" ->
  exists call,
    fetch_calls (snd (serve parse upstream req)) = [call]
    /\ fc_url call = derive_url url targetUrl
    /\ pathname (fc_url call) = pathname url.
Proof.
  intros Hurl Hget Hne Hparse Hpath Hscheme.
  exists (outbound_call req (derive_url url targetUrl)).
  split; [|split; [reflexivity|]].
  - exact (serve_fetches_once parse upstream req url Hurl target Hget Hne
             targetUrl Hparse).
  - simpl. unfold pathname at 1. rewrite derive_url_path.
    unfold set_pathname. rewrite Hpath.
    destruct (String.eqb_spec (url_scheme targetUrl) "file");
      [contradiction|reflexivity].
Qed.

(** C3 (amended) at the specification's example: path [/foo], query
    [x=1]. *)
Lemma path_is_inbound_path_witness :
  let req :=
    mkRequest "https://proxy.example/foo?target=https://example.com/bar&x=1"
              "GET" ∅ None in
  exists call,
    fetch_calls (snd (serve Reference.parse (fun _ => Hangs) req)) = [call]
    /\ pathname (fc_url call) = "/foo"
    /\ searchParams (fc_url call) = [("x", "1")].
Proof.
  intros req.
  destruct (path_is_inbound_path Reference.parse (fun _ => Hangs) req
              (mkURL "https" (Some "proxy.example") None (ListPath "/foo")
                     [("target", "https://example.com/bar"); ("x", "1")] None)
              "https://example.com/bar"
              (mkURL "https" (Some "example.com") None (ListPath "/bar") [] None)
              "/bar" eq_refl eq_refl ltac:(discriminate) eq_refl eq_refl
              ltac:(discriminate))
    as (call & Hcalls & Hcall & Hpath).
  exists call. split; [exact Hcalls|]. split; [exact Hpath|].
  rewrite Hcall. reflexivity.
Defined.

(** Why C3 leaves [file] targets out: on a [file] URL the setter rewrites a
    first segment [C|] of the assigned path to [C:], so the derived path is
    not the inbound one. *)
Lemma file_target_gets_a_drive_letter :
  let url :=
    mkURL "https" (Some "proxy.example") None (ListPath "/C|/x")
          [("target", "file:///y")] None in
  let targetUrl := mkURL "file" (Some "") None (ListPath "/y") [] None in
  pathname url = "/C|/x"
  /\ pathname (derive_url url targetUrl) = "/C:/x".
Proof. intros url targetUrl. split; reflexivity. Qed.

Lemma copy_params_snoc q p acc :
  List.fold_left copy_param (q ++ [p]) acc
  = copy_param (List.fold_left copy_param q acc) p.
Proof. rewrite List.fold_left_app. reflexivity. Qed.

(** An inbound name other than [target] ends up with one pair, holding the
    last of its inbound values. *)
Lemma copy_params_last q acc name value :
  name <> "target" ->
  last (USP.getAll name q) = Some value ->
  USP.getAll name (List.fold_left copy_param q acc) = [value].
Proof.
  intros Hname. revert value.
  induction q as [|[k v] q IH] using rev_ind; intros value Hlast.
  - discriminate.
  - rewrite copy_params_snoc. rewrite USPFacts.getAll_snoc in Hlast.
    unfold copy_param. simpl.
    destruct (String.eqb_spec k name) as [->|Hk].
    + rewrite last_snoc in Hlast. injection Hlast as ->.
      destruct (String.eqb_spec name "target"); [contradiction|]. simpl.
      apply USPFacts.getAll_set_same.
    + rewrite List.app_nil_r in Hlast.
      destruct (negb (String.eqb k "target")); [|apply IH, Hlast].
      rewrite USPFacts.getAll_set_other by exact Hk.
      apply IH, Hlast.
Qed.

(** The pairs of a name that is [target] or does not occur inbound are
    those of the target's own query. *)
Lemma copy_params_kept q acc name :
  name = "target" \/ USP.getAll name q = [] ->
  USP.getAll name (List.fold_left copy_param q acc) = USP.getAll name acc.
Proof.
  induction q as [|[k v] q IH] using rev_ind; intros Hname.
  - reflexivity.
  - rewrite copy_params_snoc. unfold copy_param. simpl.
    destruct (String.eqb_spec k "target") as [->|Hk]; simpl.
    + apply IH. destruct Hname as [->|Hnone]; [left; reflexivity|].
      rewrite USPFacts.getAll_snoc in Hnone.
      apply List.app_eq_nil in Hnone as [Hnone _]. right. exact Hnone.
    + assert (Hother : k <> name).
      { intros ->. destruct Hname as [->|Hnone]; [contradiction|].
        rewrite USPFacts.getAll_snoc, String.eqb_refl in Hnone.
        apply List.app_eq_nil in Hnone as [_ Hnone]. discriminate. }
      rewrite USPFacts.getAll_set_other by exact Hother.
      apply IH. destruct Hname as [->|Hnone]; [left; reflexivity|].
      rewrite USPFacts.getAll_snoc in Hnone.
      apply List.app_eq_nil in Hnone as [Hnone _]. right. exact Hnone.
Qed.

(** C4.  For a well-formed request, every inbound query parameter other
    than [target] is put on the URL of the upstream call: its name then has
    a single pair there, holding the last inbound value of that name (so a
    same-named parameter of the target is overwritten, and of a repeated
    inbound name only the last value survives); the target's parameters
    under names that no copied inbound parameter has are kept as they
    are. *)
Theorem query_is_merged parse upstream req url target targetUrl :
  parse (req_url req) = inr url ->
  USP.get "target" (searchParams url) = Some target ->
  target <> "" ->
  parse target = inr targetUrl ->
  exists call,
    fetch_calls (snd (serve parse upstream req)) = [call]
    /\ (forall name value,
          name <> "target" ->
          last (USP.getAll name (searchParams url)) = Some value ->
          USP.getAll name (searchParams (fc_url call)) = [value])
    /\ (forall name,
          name = "target" \/ USP.getAll name (searchParams url) = [] ->
          USP.getAll name (searchParams (fc_url call))
          = USP.getAll name (searchParams targetUrl)).
Proof.
  intros Hurl Hget Hne Hparse.
  exists (outbound_call req (derive_url url targetUrl)).
  split; [|split].
  - exact (serve_fetches_once parse upstream req url Hurl target Hget Hne
             targetUrl Hparse).
  - intros name value Hname Hlast. simpl. rewrite derive_url_query.
    apply copy_params_last; assumption.
  - intros name Hname. simpl. rewrite derive_url_query.
    apply copy_params_kept; assumption.
Qed.

(** C4 at an inbound query that repeats [x] and a target that brings
    [keep]. *)
Lemma query_is_merged_witness :
  let req :=
    mkRequest "https://proxy.example/p?target=https://example.com?keep=0&x=1&y=2&x=3"
              "GET" ∅ None in
  exists call,
    fetch_calls (snd (serve Reference.parse (fun _ => Hangs) req)) = [call]
    /\ USP.getAll "x" (searchParams (fc_url call)) = ["3"]
    /\ USP.getAll "y" (searchParams (fc_url call)) = ["2"]
    /\ USP.getAll "keep" (searchParams (fc_url call)) = ["0"]
    /\ USP.getAll "target" (searchParams (fc_url call)) = [].
Proof.
  intros req.
  destruct (query_is_merged Reference.parse (fun _ => Hangs) req
              (mkURL "https" (Some "proxy.example") None (ListPath "/p")
                     [("target", "https://example.com?keep=0"); ("x", "1");
                      ("y", "2"); ("x", "3")] None)
              "https://example.com?keep=0"
              (mkURL "https" (Some "example.com") None (ListPath "/")
                     [("keep", "0")] None)
              eq_refl eq_refl ltac:(discriminate) eq_refl)
    as (call & Hcalls & Hlast & Hkept).
  exists call. split; [exact Hcalls|]. repeat split.
  - apply Hlast; [discriminate|reflexivity].
  - apply Hlast; [discriminate|reflexivity].
  - apply (Hkept "keep"). right. reflexivity.
  - apply (Hkept "target"). left. reflexivity.
Defined.

(** ** The outbound headers *)

(** C5.  For a well-formed request the headers of the upstream call are the
    inbound headers with three changes: [Host] is the host (with port) of
    the derived URL, and [x-forwarded-host] and [x-vercel-id] are gone;
    every header of another name is as it came in.  The step has no failure
    of its own: whenever the target parses, the call is made with these
    headers. *)
Theorem headers_are_rewritten parse upstream req url target targetUrl :
  parse (req_url req) = inr url ->
  USP.get "target" (searchParams url) = Some target ->
  target <> "" ->
  parse target = inr targetUrl ->
  exists call,
    fetch_calls (snd (serve parse upstream req)) = [call]
    /\ fc_url call = derive_url url targetUrl
    /\ fc_headers call
       = base.delete "x-vercel-id"
           (base.delete "x-forwarded-host"
              (<["host" := host (fc_url call)]> (req_headers req)))
    /\ Headers.get "Host" (fc_headers call) = Some (host (fc_url call))
    /\ Headers.get "x-forwarded-host" (fc_headers call) = None
    /\ Headers.get "x-vercel-id" (fc_headers call) = None
    /\ (forall name,
          Headers.byte_lowercase name
            ∉ ["host"; "x-forwarded-host"; "x-vercel-id"] ->
          Headers.get name (fc_headers call)
          = Headers.get name (req_headers req)).
Proof.
  intros Hurl Hget Hne Hparse.
  exists (outbound_call req (derive_url url targetUrl)).
  split; [|split; [reflexivity|split; [reflexivity|]]].
  - exact (serve_fetches_once parse upstream req url Hurl target Hget Hne
             targetUrl Hparse).
  - simpl. unfold derive_headers, Headers.get, Headers.set, Headers.delete,
      Headers.copy.
    change (Headers.byte_lowercase "Host") with "host".
    change (Headers.byte_lowercase "x-forwarded-host") with "x-forwarded-host".
    change (Headers.byte_lowercase "x-vercel-id") with "x-vercel-id".
    repeat split.
    + rewrite !lookup_delete_ne by discriminate. apply lookup_insert_eq.
    + rewrite lookup_delete_ne by discriminate. apply lookup_delete_eq.
    + apply lookup_delete_eq.
    + intros name Hname.
      rewrite !lookup_delete_ne, lookup_insert_ne; [reflexivity|..];
        intros Heq; apply Hname; rewrite <- Heq; set_solver.
Qed.

(** C5 at a request with the two proxy headers and one other header. *)
Lemma headers_are_rewritten_witness :
  let req :=
    mkRequest "https://proxy.example/foo?target=https://example.com:8443/bar"
              "GET"
              {[ "host" := "proxy.example"; "accept" := "text/html";
                 "x-forwarded-host" := "proxy.example";
                 "x-vercel-id" := "iad1::abcde" ]}
              None in
  exists call,
    fetch_calls (snd (serve Reference.parse (fun _ => Hangs) req)) = [call]
    /\ Headers.get "Host" (fc_headers call) = Some "example.com:8443"
    /\ Headers.get "X-Forwarded-Host" (fc_headers call) = None
    /\ Headers.get "X-Vercel-Id" (fc_headers call) = None
    /\ Headers.get "Accept" (fc_headers call) = Some "text/html".
Proof.
  intros req.
  destruct (headers_are_rewritten Reference.parse (fun _ => Hangs) req
              (mkURL "https" (Some "proxy.example") None (ListPath "/foo")
                     [("target", "https://example.com:8443/bar")] None)
              "https://example.com:8443/bar"
              (mkURL "https" (Some "example.com") (Some 8443) (ListPath "/bar")
                     [] None)
              eq_refl eq_refl ltac:(discriminate) eq_refl)
    as (call & Hcalls & Hcall & _ & Hhost & Hfwd & Hid & Hother).
  exists call. split; [exact Hcalls|]. repeat split.
  - rewrite Hhost, Hcall. reflexivity.
  - exact Hfwd.
  - exact Hid.
  - rewrite (Hother "Accept"); [reflexivity|].
    change (Headers.byte_lowercase "Accept") with "accept".
    rewrite !not_elem_of_cons.
    repeat split; try discriminate. apply not_elem_of_nil.
Defined.

(** ** The monitoring stream *)

Lemma total_length_cons chunk chunks :
  total_length (chunk :: chunks) = chunk_length chunk + total_length chunks.
Proof. reflexivity. Qed.

Lemma chunk_length_zeros n : chunk_length (zeros n) = n.
Proof.
  unfold chunk_length, zeros. rewrite List.repeat_length. apply N2Nat.id.
Qed.

Lemma total_length_app pre post :
  total_length (pre ++ post) = total_length pre + total_length post.
Proof.
  induction pre as [|chunk pre IH]; simpl app.
  - reflexivity.
  - rewrite !total_length_cons, IH. lia.
Qed.

Lemma transform_within downloadedBytes chunk :
  downloadedBytes + chunk_length chunk <= MAX_BYTES ->
  transform downloadedBytes chunk
  = (downloadedBytes + chunk_length chunk, Enqueue chunk).
Proof.
  intros Hle. unfold transform. apply N.ltb_ge in Hle. rewrite Hle. reflexivity.
Qed.

Lemma transform_over downloadedBytes chunk :
  MAX_BYTES < downloadedBytes + chunk_length chunk ->
  transform downloadedBytes chunk
  = (downloadedBytes + chunk_length chunk, Fail (Error errorMsg)).
Proof.
  intros Hlt. unfold transform. apply N.ltb_lt in Hlt. rewrite Hlt. reflexivity.
Qed.

(** With no timer armed, a body that stays within the limit and closes
    comes out whole, and the stream closes. *)
Lemma pipe_within_limit chunks clock downloadedBytes :
  downloadedBytes + total_length (List.map snd chunks) <= MAX_BYTES ->
  pipeTo transform None clock downloadedBytes chunks SourceCloses
  = (mkReadable (List.map snd chunks) Closed, Fulfilled).
Proof.
  revert clock downloadedBytes.
  induction chunks as [|[dt chunk] chunks IH]; intros clock downloadedBytes Hle.
  - reflexivity.
  - simpl List.map in *. rewrite total_length_cons in Hle.
    cbn [pipeTo fires_before].
    rewrite transform_within by lia.
    rewrite IH by lia. reflexivity.
Qed.

(** With no timer armed, a body that goes over the limit comes out up to
    the chunk that crosses it, that chunk left out; the stream errors and
    the pipe rejects, whatever would have followed. *)
Lemma pipe_over_limit chunks clock downloadedBytes fin :
  downloadedBytes <= MAX_BYTES ->
  MAX_BYTES < downloadedBytes + total_length (List.map snd chunks) ->
  exists pre crossing post,
    List.map snd chunks = pre ++ crossing :: post
    /\ downloadedBytes + total_length pre <= MAX_BYTES
    /\ MAX_BYTES < downloadedBytes + total_length pre + chunk_length crossing
    /\ pipeTo transform None clock downloadedBytes chunks fin
       = (mkReadable pre (Errored (Error errorMsg)), Rejected (Error errorMsg)).
Proof.
  revert clock downloadedBytes.
  induction chunks as [|[dt chunk] chunks IH];
    intros clock downloadedBytes Hstart Hover.
  - simpl in Hover. lia.
  - simpl List.map in *. rewrite total_length_cons in Hover.
    cbn [pipeTo fires_before].
    destruct (N.le_gt_cases (downloadedBytes + chunk_length chunk) MAX_BYTES)
      as [Hfits|Hcross].
    + destruct (IH (clock + dt) (downloadedBytes + chunk_length chunk))
        as (pre & crossing & post & Hsplit & Hpre & Hcrossing & Hpipe);
        [exact Hfits|lia|].
      exists (chunk :: pre), crossing, post.
      rewrite total_length_cons, transform_within, Hpipe, Hsplit by exact Hfits.
      repeat split; try reflexivity; lia.
    + exists [], chunk, (List.map snd chunks).
      rewrite transform_over by exact Hcross.
      repeat split; simpl; try reflexivity; lia.
Qed.

(** With no timer armed, the delays between chunks do not matter. *)
Lemma pipe_ignores_delays chunks chunks' clock clock' downloadedBytes fin :
  List.map snd chunks = List.map snd chunks' ->
  pipeTo transform None clock downloadedBytes chunks fin
  = pipeTo transform None clock' downloadedBytes chunks' fin.
Proof.
  revert chunks' clock clock' downloadedBytes.
  induction chunks as [|[dt chunk] chunks IH];
    intros [|[dt' chunk'] chunks'] clock clock' downloadedBytes Hsame;
    try discriminate.
  - reflexivity.
  - simpl in Hsame. injection Hsame as -> Hrest.
    cbn [pipeTo fires_before].
    destruct (transform downloadedBytes chunk') as [s' [out|e]]; [|reflexivity].
    rewrite (IH chunks' (clock + dt) (clock' + dt') s' Hrest). reflexivity.
Qed.

(** With the timer still armed, a chunk that comes after the deadline would
    find the stream cut by the abort signal. *)
Lemma pipe_cut_by_armed_timer due clock downloadedBytes dt chunk chunks fin :
  due < clock + dt ->
  pipeTo transform (Some due) clock downloadedBytes ((dt, chunk) :: chunks) fin
  = (mkReadable [] (Errored AbortError), Rejected AbortError).
Proof.
  intros Hlate. cbn [pipeTo fires_before].
  apply N.ltb_lt in Hlate. rewrite Hlate. reflexivity.
Qed.

Section Streaming.

Variable parse : string -> string + URL.
Variable upstream : FetchCall -> Settle.
Variable req : Request.
Variable url : URL.
Variable target : string.
Variable targetUrl : URL.
Variable latency : N.
Variable response : UpstreamResponse.
Hypothesis Hurl : parse (req_url req) = inr url.
Hypothesis Htarget : USP.get "target" (searchParams url) = Some target.
Hypothesis Hnonempty : target <> "".
Hypothesis Hparse : parse target = inr targetUrl.
Hypothesis Hresponds :
  upstream (outbound_call req (derive_url url targetUrl))
  = Responds latency response.
Hypothesis Hintime : latency <= MAX_DURATION_MS.

(** Once the upstream has answered in time, the timer is cleared and the
    signal has not fired. *)
Lemma serve_responded_world :
  snd (serve parse upstream req)
  = mkWorld latency None false
            (setup_events req target (derive_url url targetUrl)
             ++ [EvClearTimeout]).
Proof.
  rewrite (serve_responded parse upstream req url Hurl target Htarget Hnonempty
             targetUrl Hparse latency response Hresponds Hintime).
  apply try_new_Response_world.
Qed.

(** A status that [new Response] accepts with a body: the answer carries
    the upstream's status, status text and headers, and the monitoring
    stream as its body. *)
Lemma serve_streams :
  200 <= up_status response <= 599 ->
  null_body_status (up_status response) = false ->
  fst (serve parse upstream req)
  = Ret (mkResponse (up_status response) (up_statusText response)
                    (up_headers response)
                    (BodyStream (relayed None latency (up_body response)))).
Proof.
  intros [Hlow Hhigh] Hnull.
  rewrite (serve_responded parse upstream req url Hurl target Htarget Hnonempty
             targetUrl Hparse latency response Hresponds Hintime).
  unfold try_catch. rewrite stream_response_built; [reflexivity| |exact Hnull].
  apply orb_false_intro; [apply N.ltb_ge, Hlow|apply N.ltb_ge, Hhigh].
Qed.

(** A null body status: [new Response] throws, and the answer is the 502 of
    the [catch]. *)
Lemma serve_null_body_status :
  200 <= up_status response ->
  null_body_status (up_status response) = true ->
  fst (serve parse upstream req)
  = Ret (text_response 502
           "Proxy Blocked: Response with null body status cannot have body").
Proof.
  intros Hlow Hnull.
  rewrite (serve_responded parse upstream req url Hurl target Htarget Hnonempty
             targetUrl Hparse latency response Hresponds Hintime).
  unfold try_catch, new_Response at 1. rewrite Hnull.
  assert (Hrange : (up_status response <? 200) || (599 <? up_status response)
                   = false).
  { unfold null_body_status in Hnull. apply bool_decide_eq_true in Hnull.
    repeat (apply elem_of_cons in Hnull as [Hs|Hnull];
            [rewrite Hs in *; first [reflexivity | lia]|]).
    apply elem_of_nil in Hnull. contradiction. }
  rewrite Hrange. reflexivity.
Qed.

(** A body within the limit, under a status that may carry one, is relayed
    whole and the stream closes. *)
Lemma body_within_limit_is_relayed src :
  200 <= up_status response <= 599 ->
  null_body_status (up_status response) = false ->
  up_body response = Some src ->
  src_end src = SourceCloses ->
  total_length (chunks_of src) <= MAX_BYTES ->
  fst (serve parse upstream req)
  = Ret (mkResponse (up_status response) (up_statusText response)
                    (up_headers response)
                    (BodyStream (mkReadable (chunks_of src) Closed))).
Proof.
  intros Hrange Hnull Hbody Hend Htotal.
  rewrite (serve_streams Hrange Hnull), Hbody. unfold relayed.
  rewrite Hend, pipe_within_limit by (rewrite N.add_0_l; exact Htotal).
  reflexivity.
Qed.

End Streaming.

(** C6, where the handler departs from it.  The upstream answers 204 No
    Content: a null body, so 0 bytes, well within [MAX_BYTES].
    [new Response(readable, { status: 204 })] throws, the [catch] takes
    over, and the caller gets 502 instead of the upstream's status and
    headers. *)
Theorem no_content_becomes_502 :
  let req :=
    mkRequest "https://proxy.example/ping?target=https://example.com"
              "GET" ∅ None in
  let upstream := fun _ : FetchCall =>
    Responds 20 (mkUpstream 204 "No Content" {[ "x-served-by" := "origin" ]}
                            None) in
  exists resp,
    fst (serve Reference.parse upstream req) = Ret resp
    /\ resp_status resp = 502
    /\ resp_status resp <> 204
    /\ resp_body resp
       = BodyText "Proxy Blocked: Response with null body status cannot have body"
    /\ Headers.get "x-served-by" (resp_headers resp) = None.
Proof.
  intros req upstream. eexists.
  split; [reflexivity|]. repeat split; try reflexivity. discriminate.
Qed.


(** C7.  When the body of a streamed answer (the upstream answered in time,
    with a status that [new Response] takes together with a body) adds up to
    more than [MAX_BYTES], the caller is given exactly the chunks before the
    one that crosses the limit; that chunk is left out whole, the stream
    then errors and nothing after it is forwarded.  The handler itself
    returns the response, and the rejection of the aborted pipe is handled:
    none is left unhandled. *)
Theorem over_limit_body_is_cut parse upstream req url target targetUrl
    latency response src :
  parse (req_url req) = inr url ->
  USP.get "target" (searchParams url) = Some target ->
  target <> "" ->
  parse target = inr targetUrl ->
  upstream (outbound_call req (derive_url url targetUrl))
  = Responds latency response ->
  latency <= MAX_DURATION_MS ->
  200 <= up_status response <= 599 ->
  null_body_status (up_status response) = false ->
  up_body response = Some src ->
  MAX_BYTES < total_length (chunks_of src) ->
  let result := serve parse upstream req in
  exists pre crossing post,
    chunks_of src = pre ++ crossing :: post
    /\ total_length pre <= MAX_BYTES
    /\ MAX_BYTES < total_length pre + chunk_length crossing
    /\ fst result
       = Ret (mkResponse (up_status response) (up_statusText response)
                (up_headers response)
                (BodyStream
                   (mkReadable pre
                      (Errored (Error "Traffic Limit Exceeded: >10MB")))))
    /\ unhandled_rejections (snd result) = [].
Proof.
  intros Hurl Hget Hne Hparse Hup Hlat Hrange Hnull Hbody Hover result.
  destruct (pipe_over_limit (src_chunks src) latency 0 (src_end src))
    as (pre & crossing & post & Hsplit & Hpre & Hcrossing & Hpipe).
  { apply N.le_0_l. }
  { rewrite N.add_0_l. exact Hover. }
  rewrite N.add_0_l in Hpre, Hcrossing.
  exists pre, crossing, post. split; [exact Hsplit|].
  split; [exact Hpre|]. split; [exact Hcrossing|]. subst result. split.
  - rewrite (serve_streams parse upstream req url target targetUrl latency
               response Hurl Hget Hne Hparse Hup Hlat Hrange Hnull).
    rewrite Hbody. unfold relayed. rewrite Hpipe. reflexivity.
  - unfold unhandled_rejections.
    rewrite (serve_responded_world parse upstream req url target targetUrl
               latency response Hurl Hget Hne Hparse Hup Hlat).
    reflexivity.
Qed.

(** C9.  When the upstream answers within [MAX_DURATION_MS], the timer is
    cleared right after the [fetch] and the signal has not fired.  The
    stream the caller gets is the monitoring stream run with no timer: if
    the upstream's body closes, then, however long the chunks take to
    arrive, either it fits the limit and is relayed whole, or it goes over
    and the stream ends with the limit's error. *)
Theorem deadline_is_disarmed_at_headers parse upstream req url target targetUrl
    latency response :
  parse (req_url req) = inr url ->
  USP.get "target" (searchParams url) = Some target ->
  target <> "" ->
  parse target = inr targetUrl ->
  upstream (outbound_call req (derive_url url targetUrl))
  = Responds latency response ->
  latency <= MAX_DURATION_MS ->
  let result := serve parse upstream req in
  deadline (snd result) = None
  /\ aborted (snd result) = false
  /\ events (snd result)
     = setup_events req target (derive_url url targetUrl) ++ [EvClearTimeout]
  /\ (forall resp readable,
        fst result = Ret resp ->
        resp_body resp = BodyStream readable ->
        readable = relayed None latency (up_body response))
  /\ (forall src,
        up_body response = Some src ->
        src_end src = SourceCloses ->
        (total_length (chunks_of src) <= MAX_BYTES
         /\ relayed None latency (Some src) = mkReadable (chunks_of src) Closed)
        \/ (MAX_BYTES < total_length (chunks_of src)
            /\ ending (relayed None latency (Some src))
               = Errored (Error "Traffic Limit Exceeded: >10MB"))).
Proof.
  intros Hurl Hget Hne Hparse Hup Hlat result. subst result.
  rewrite (serve_responded_world parse upstream req url target targetUrl
             latency response Hurl Hget Hne Hparse Hup Hlat).
  split; [reflexivity|]. split; [reflexivity|]. split; [reflexivity|]. split.
  - intros resp readable Hresp Hstream.
    rewrite (serve_responded parse upstream req url Hurl target Hget Hne
               targetUrl Hparse latency response Hup Hlat) in Hresp.
    unfold try_catch, new_Response in Hresp.
    destruct ((up_status response <? 200) || (599 <? up_status response)).
    + simpl in Hresp. injection Hresp as <-. discriminate.
    + destruct (null_body_status (up_status response)).
      * simpl in Hresp. injection Hresp as <-. discriminate.
      * simpl in Hresp. injection Hresp as <-. simpl in Hstream.
        injection Hstream as <-. reflexivity.
  - intros src Hbody Hend. unfold relayed. rewrite Hend.
    destruct (N.le_gt_cases (total_length (chunks_of src)) MAX_BYTES)
      as [Hfits|Hover].
    + left. split; [exact Hfits|].
      rewrite pipe_within_limit by (rewrite N.add_0_l; exact Hfits).
      reflexivity.
    + right. split; [exact Hover|].
      destruct (pipe_over_limit (src_chunks src) latency 0 SourceCloses)
        as (pre & crossing & post & _ & _ & _ & Hpipe).
      { apply N.le_0_l. }
      { rewrite N.add_0_l. exact Hover. }
      rewrite Hpipe. reflexivity.
Qed.

(** C7 at a body of 4 bytes, then 10 MiB, then 4 bytes. *)
Lemma over_limit_body_is_cut_witness :
  let req :=
    mkRequest "https://proxy.example/video.mp4?target=https://example.com"
              "GET" ∅ None in
  let src :=
    mkSource [(10, zeros 4); (10, zeros 10485760); (10, zeros 4)] SourceCloses in
  let response := mkUpstream 200 "OK" ∅ (Some src) in
  let result := serve Reference.parse (fun _ => Responds 30 response) req in
  exists pre crossing post,
    chunks_of src = pre ++ crossing :: post
    /\ total_length pre <= MAX_BYTES
    /\ MAX_BYTES < total_length pre + chunk_length crossing
    /\ fst result
       = Ret (mkResponse 200 "OK" ∅
                (BodyStream
                   (mkReadable pre
                      (Errored (Error "Traffic Limit Exceeded: >10MB")))))
    /\ unhandled_rejections (snd result) = [].
Proof.
  intros req src response.
  apply (over_limit_body_is_cut Reference.parse (fun _ => Responds 30 response)
           req
           (mkURL "https" (Some "proxy.example") None (ListPath "/video.mp4")
                  [("target", "https://example.com")] None)
           "https://example.com"
           (mkURL "https" (Some "example.com") None (ListPath "/") [] None)
           30 response src).
  - reflexivity.
  - reflexivity.
  - discriminate.
  - reflexivity.
  - reflexivity.
  - discriminate.
  - split; discriminate.
  - reflexivity.
  - reflexivity.
  - change (total_length (chunks_of src))
      with (chunk_length (zeros 4)
            + (chunk_length (zeros 10485760) + (chunk_length (zeros 4) + 0))).
    rewrite !chunk_length_zeros. reflexivity.
Defined.

(** C9 at an upstream that answers after 14 s and then takes 80 s over a
    body of 5 bytes. *)
Lemma deadline_is_disarmed_at_headers_witness :
  let req :=
    mkRequest "https://proxy.example/feed?target=https://example.com"
              "GET" ∅ None in
  let src :=
    mkSource [(20000, zeros 3); (60000, zeros 2)] SourceCloses in
  let response := mkUpstream 200 "OK" ∅ (Some src) in
  let result := serve Reference.parse (fun _ => Responds 14000 response) req in
  deadline (snd result) = None
  /\ aborted (snd result) = false
  /\ fst result
     = Ret (mkResponse 200 "OK" ∅
              (BodyStream (mkReadable [zeros 3; zeros 2] Closed))).
Proof.
  intros req src response result.
  destruct (deadline_is_disarmed_at_headers Reference.parse
              (fun _ => Responds 14000 response) req
              (mkURL "https" (Some "proxy.example") None (ListPath "/feed")
                     [("target", "https://example.com")] None)
              "https://example.com"
              (mkURL "https" (Some "example.com") None (ListPath "/") [] None)
              14000 response
              eq_refl eq_refl ltac:(discriminate) eq_refl eq_refl
              ltac:(discriminate))
    as (Hdeadline & Haborted & _ & Hstream & Hbound).
  split; [exact Hdeadline|]. split; [exact Haborted|]. reflexivity.
Defined.

(** ** The handler always answers *)

(** Whenever the inbound URL parses, the handler returns a response: it
    neither throws nor waits for ever, whatever the parser says of the
    target and whatever the upstream does. *)
Lemma serve_returns parse upstream req url :
  parse (req_url req) = inr url ->
  exists resp, fst (serve parse upstream req) = Ret resp.
Proof.
  intros Hurl.
  destruct (falsy (USP.get "target" (searchParams url))) eqn:Hfalsy.
  { rewrite (serve_rejected parse upstream req url Hurl Hfalsy). eauto. }
  apply falsy_false_inv in Hfalsy as (target & Hget & Hne).
  destruct (parse target) as [msg|targetUrl] eqn:Hparse.
  { rewrite (serve_unparsable parse upstream req url Hurl target Hget Hne msg
               Hparse). eauto. }
  destruct (upstream (outbound_call req (derive_url url targetUrl)))
    as [latency response|latency msg|] eqn:Hup.
  - destruct (N.le_gt_cases latency MAX_DURATION_MS) as [Hle|Hlt].
    + rewrite (serve_responded parse upstream req url Hurl target Hget Hne
                 targetUrl Hparse latency response Hup Hle).
      unfold try_catch, new_Response.
      destruct ((up_status response <? 200) || (599 <? up_status response));
        [simpl; eauto|].
      destruct (null_body_status (up_status response)); simpl; eauto.
    + rewrite (serve_timed_out parse upstream req url Hurl target Hget Hne
                 targetUrl Hparse) by (rewrite Hup; exact Hlt).
      eauto.
  - destruct (N.le_gt_cases latency MAX_DURATION_MS) as [Hle|Hlt].
    + rewrite (serve_network_failure parse upstream req url Hurl target Hget
                 Hne targetUrl Hparse latency msg Hup Hle).
      eauto.
    + rewrite (serve_timed_out parse upstream req url Hurl target Hget Hne
                 targetUrl Hparse) by (rewrite Hup; exact Hlt).
      eauto.
  - rewrite (serve_timed_out parse upstream req url Hurl target Hget Hne
               targetUrl Hparse) by (rewrite Hup; exact I).
    eauto.
Qed.

(** * Further properties of the handler *)

(** ** What the monitoring stream lets through *)

(** Whatever the timer, the clock, the chunks and the end of the source:
    what has been counted plus what is let through stays within the limit,
    and what is let through is the beginning of what came in. *)
Lemma pipe_delivers_prefix_within_limit d clock downloadedBytes chunks fin :
  downloadedBytes <= MAX_BYTES ->
  downloadedBytes
  + total_length (delivered (fst (pipeTo transform d clock downloadedBytes
                                         chunks fin)))
  <= MAX_BYTES
  /\ exists rest,
       List.map snd chunks
       = delivered (fst (pipeTo transform d clock downloadedBytes chunks fin))
         ++ rest.
Proof.
  revert clock downloadedBytes.
  induction chunks as [|[dt chunk] chunks IH]; intros clock downloadedBytes Hle.
  - destruct fin; simpl; (split; [lia|exists []; reflexivity]).
  - cbn [pipeTo]. destruct (fires_before d (clock + dt)).
    { simpl. split; [lia|eexists; reflexivity]. }
    unfold transform at 1 3.
    destruct (N.ltb_spec MAX_BYTES (downloadedBytes + chunk_length chunk))
      as [Hcross|Hfits].
    { simpl. split; [lia|eexists; reflexivity]. }
    destruct (IH (clock + dt) (downloadedBytes + chunk_length chunk) Hfits)
      as [Hsum [rest Hrest]].
    destruct (pipeTo transform d (clock + dt)
                (downloadedBytes + chunk_length chunk) chunks fin)
      as [r p].
    cbn [fst delivered] in *. rewrite total_length_cons. split; [lia|].
    exists rest. simpl List.map. rewrite Hrest. reflexivity.
Qed.

(** With no timer armed, a body that stays within the limit and then
    breaks makes the stream end with the source's error. *)
Lemma pipe_ends_with_the_source_error chunks clock downloadedBytes e :
  downloadedBytes + total_length (List.map snd chunks) <= MAX_BYTES ->
  ending (fst (pipeTo transform None clock downloadedBytes chunks
                      (SourceBreaks e)))
  = Errored e.
Proof.
  revert clock downloadedBytes.
  induction chunks as [|[dt chunk] chunks IH]; intros clock downloadedBytes Hle.
  - reflexivity.
  - simpl List.map in *. rewrite total_length_cons in Hle.
    cbn [pipeTo fires_before].
    rewrite transform_within by lia.
    specialize (IH (clock + dt) (downloadedBytes + chunk_length chunk)).
    destruct (pipeTo transform None (clock + dt)
                (downloadedBytes + chunk_length chunk) chunks (SourceBreaks e))
      as [r p].
    cbn [fst ending] in *. apply IH. lia.
Qed.

(** X1.  When the upstream answers in time with a status that may carry a
    body, and its body closes after at most [MAX_BYTES] bytes (the limit
    itself included), the caller gets every chunk, unchanged and in order,
    under the upstream's status, status text and headers, and the stream
    closes. *)
Theorem body_up_to_the_limit_is_relayed_whole parse upstream req url target
    targetUrl latency response src :
  parse (req_url req) = inr url ->
  USP.get "target" (searchParams url) = Some target ->
  target <> "" ->
  parse target = inr targetUrl ->
  upstream (outbound_call req (derive_url url targetUrl))
  = Responds latency response ->
  latency <= MAX_DURATION_MS ->
  200 <= up_status response <= 599 ->
  null_body_status (up_status response) = false ->
  up_body response = Some src ->
  src_end src = SourceCloses ->
  total_length (chunks_of src) <= MAX_BYTES ->
  fst (serve parse upstream req)
  = Ret (mkResponse (up_status response) (up_statusText response)
                    (up_headers response)
                    (BodyStream (mkReadable (chunks_of src) Closed)))
  /\ unhandled_rejections (snd (serve parse upstream req)) = [].
Proof.
  intros Hurl Hget Hne Hparse Hup Hlat Hrange Hnull Hbody Hend Htotal. split.
  - exact (body_within_limit_is_relayed parse upstream req url target targetUrl
             latency response Hurl Hget Hne Hparse Hup Hlat src Hrange Hnull
             Hbody Hend Htotal).
  - unfold unhandled_rejections.
    rewrite (serve_responded_world parse upstream req url target targetUrl
               latency response Hurl Hget Hne Hparse Hup Hlat).
    reflexivity.
Qed.

(** X1 at a body of exactly [MAX_BYTES] bytes, in two chunks. *)
Lemma body_up_to_the_limit_is_relayed_whole_witness :
  let req :=
    mkRequest "https://proxy.example/big.bin?target=https://example.com"
              "GET" ∅ None in
  let src := mkSource [(10, zeros 10485756); (10, zeros 4)] SourceCloses in
  let response :=
    mkUpstream 200 "OK" {[ "content-type" := "application/octet-stream" ]}
               (Some src) in
  fst (serve Reference.parse (fun _ => Responds 30 response) req)
  = Ret (mkResponse 200 "OK" {[ "content-type" := "application/octet-stream" ]}
           (BodyStream (mkReadable [zeros 10485756; zeros 4] Closed))).
Proof.
  intros req src response.
  refine (proj1 (body_up_to_the_limit_is_relayed_whole Reference.parse
           (fun _ => Responds 30 response) req
           (mkURL "https" (Some "proxy.example") None (ListPath "/big.bin")
                  [("target", "https://example.com")] None)
           "https://example.com"
           (mkURL "https" (Some "example.com") None (ListPath "/") [] None)
           30 response src
           eq_refl eq_refl ltac:(discriminate) eq_refl eq_refl
           ltac:(discriminate) ltac:(split; discriminate) eq_refl eq_refl
           eq_refl _)).
  change (total_length (chunks_of src))
    with (chunk_length (zeros 10485756) + (chunk_length (zeros 4) + 0)).
  rewrite !chunk_length_zeros. discriminate.
Defined.

(** X2.  When the upstream answers in time with a status that
    [new Response] refuses for a response with a body (outside 200..599, or
    one of 204, 205, 304), the caller gets a plain-text 502 whose body
    starts with [Proxy Blocked: ]; the upstream's status and headers are
    not passed on.  The timer has been cleared all the same. *)
Theorem refused_status_becomes_502 parse upstream req url target targetUrl
    latency response :
  parse (req_url req) = inr url ->
  USP.get "target" (searchParams url) = Some target ->
  target <> "" ->
  parse target = inr targetUrl ->
  upstream (outbound_call req (derive_url url targetUrl))
  = Responds latency response ->
  latency <= MAX_DURATION_MS ->
  up_status response < 200 \/ 599 < up_status response
  \/ null_body_status (up_status response) = true ->
  (exists msg,
     fst (serve parse upstream req)
     = Ret (text_response 502 ("Proxy Blocked: " +:+ msg)))
  /\ deadline (snd (serve parse upstream req)) = None.
Proof.
  intros Hurl Hget Hne Hparse Hup Hlat Hrefused. split.
  - rewrite (serve_responded parse upstream req url Hurl target Hget Hne
               targetUrl Hparse latency response Hup Hlat).
    unfold try_catch, new_Response at 1.
    destruct ((up_status response <? 200) || (599 <? up_status response))
      eqn:Hrange.
    + eexists. reflexivity.
    + apply orb_false_elim in Hrange as [Hlow Hhigh].
      apply N.ltb_ge in Hlow, Hhigh.
      destruct Hrefused as [Hlt|[Hgt|Hnull]]; [lia|lia|].
      rewrite Hnull. eexists. reflexivity.
  - rewrite (serve_responded_world parse upstream req url target targetUrl
               latency response Hurl Hget Hne Hparse Hup Hlat).
    reflexivity.
Qed.

(** X2 at an upstream that answers with status 999. *)
Lemma refused_status_becomes_502_witness :
  let req :=
    mkRequest "https://proxy.example/in?target=https://example.com"
              "GET" ∅ None in
  let response :=
    mkUpstream 999 "Request denied" {[ "x-served-by" := "origin" ]}
               (Some (mkSource [(5, zeros 2)] SourceCloses)) in
  (exists msg,
     fst (serve Reference.parse (fun _ => Responds 30 response) req)
     = Ret (text_response 502 ("Proxy Blocked: " +:+ msg)))
  /\ deadline (snd (serve Reference.parse (fun _ => Responds 30 response) req))
     = None.
Proof.
  intros req response.
  apply (refused_status_becomes_502 Reference.parse
           (fun _ => Responds 30 response) req
           (mkURL "https" (Some "proxy.example") None (ListPath "/in")
                  [("target", "https://example.com")] None)
           "https://example.com"
           (mkURL "https" (Some "example.com") None (ListPath "/") [] None)
           30 response
           eq_refl eq_refl ltac:(discriminate) eq_refl eq_refl
           ltac:(discriminate)).
  right. left. reflexivity.
Defined.

(** X3.  When the upstream answers in time, with a status that may carry a
    body, but without a body ([response.body] is [null], as for a [HEAD]
    request), nothing is piped into the monitoring stream and nothing closes
    it: the caller gets the upstream's status, status text and headers over
    a body that yields no chunk and never ends. *)
Theorem bodiless_answer_never_closes parse upstream req url target targetUrl
    latency response :
  parse (req_url req) = inr url ->
  USP.get "target" (searchParams url) = Some target ->
  target <> "" ->
  parse target = inr targetUrl ->
  upstream (outbound_call req (derive_url url targetUrl))
  = Responds latency response ->
  latency <= MAX_DURATION_MS ->
  200 <= up_status response <= 599 ->
  null_body_status (up_status response) = false ->
  up_body response = None ->
  fst (serve parse upstream req)
  = Ret (mkResponse (up_status response) (up_statusText response)
                    (up_headers response)
                    (BodyStream (mkReadable [] StillOpen))).
Proof.
  intros Hurl Hget Hne Hparse Hup Hlat Hrange Hnull Hbody.
  rewrite (serve_streams parse upstream req url target targetUrl latency
             response Hurl Hget Hne Hparse Hup Hlat Hrange Hnull).
  rewrite Hbody. reflexivity.
Qed.

(** X3 at a [HEAD] request answered 200 without a body. *)
Lemma bodiless_answer_never_closes_witness :
  let req :=
    mkRequest "https://proxy.example/doc?target=https://example.com"
              "HEAD" ∅ None in
  let response := mkUpstream 200 "OK" {[ "content-length" := "512" ]} None in
  fst (serve Reference.parse (fun _ => Responds 30 response) req)
  = Ret (mkResponse 200 "OK" {[ "content-length" := "512" ]}
           (BodyStream (mkReadable [] StillOpen))).
Proof.
  intros req response.
  apply (bodiless_answer_never_closes Reference.parse
           (fun _ => Responds 30 response) req
           (mkURL "https" (Some "proxy.example") None (ListPath "/doc")
                  [("target", "https://example.com")] None)
           "https://example.com"
           (mkURL "https" (Some "example.com") None (ListPath "/") [] None)
           30 response
           eq_refl eq_refl ltac:(discriminate) eq_refl eq_refl
           ltac:(discriminate) ltac:(split; discriminate) eq_refl eq_refl).
Defined.

(** X4.  When the upstream's body breaks with an error before it has gone
    over [MAX_BYTES], the caller has by then the upstream's status, status
    text and headers; the stream hands over a beginning of the upstream's
    chunks and then errors with the body's own error, not with the limit's.
    The rejection of the pipe is handled here too: none is left
    unhandled. *)
Theorem broken_body_ends_with_its_own_error parse upstream req url target
    targetUrl latency response src e :
  parse (req_url req) = inr url ->
  USP.get "target" (searchParams url) = Some target ->
  target <> "" ->
  parse target = inr targetUrl ->
  upstream (outbound_call req (derive_url url targetUrl))
  = Responds latency response ->
  latency <= MAX_DURATION_MS ->
  200 <= up_status response <= 599 ->
  null_body_status (up_status response) = false ->
  up_body response = Some src ->
  src_end src = SourceBreaks e ->
  total_length (chunks_of src) <= MAX_BYTES ->
  exists readable,
    fst (serve parse upstream req)
    = Ret (mkResponse (up_status response) (up_statusText response)
                      (up_headers response) (BodyStream readable))
    /\ ending readable = Errored e
    /\ (exists rest, chunks_of src = delivered readable ++ rest)
    /\ unhandled_rejections (snd (serve parse upstream req)) = [].
Proof.
  intros Hurl Hget Hne Hparse Hup Hlat Hrange Hnull Hbody Hend Htotal.
  exists (relayed None latency (up_body response)).
  split; [|split; [|split]].
  - exact (serve_streams parse upstream req url target targetUrl latency
             response Hurl Hget Hne Hparse Hup Hlat Hrange Hnull).
  - rewrite Hbody. unfold relayed. rewrite Hend.
    apply pipe_ends_with_the_source_error. rewrite N.add_0_l. exact Htotal.
  - rewrite Hbody. unfold relayed.
    destruct (pipe_delivers_prefix_within_limit None latency 0
                (src_chunks src) (src_end src)) as [_ Hprefix].
    { apply N.le_0_l. }
    exact Hprefix.
  - unfold unhandled_rejections.
    rewrite (serve_responded_world parse upstream req url target targetUrl
               latency response Hurl Hget Hne Hparse Hup Hlat).
    reflexivity.
Qed.

(** X4 at a body that breaks after two chunks. *)
Lemma broken_body_ends_with_its_own_error_witness :
  let req :=
    mkRequest "https://proxy.example/feed?target=https://example.com"
              "GET" ∅ None in
  let reset := TypeError "terminated" in
  let src := mkSource [(10, zeros 3); (10, zeros 2)] (SourceBreaks reset) in
  let response := mkUpstream 200 "OK" ∅ (Some src) in
  exists readable,
    fst (serve Reference.parse (fun _ => Responds 30 response) req)
    = Ret (mkResponse 200 "OK" ∅ (BodyStream readable))
    /\ ending readable = Errored reset
    /\ (exists rest, [zeros 3; zeros 2] = delivered readable ++ rest)
    /\ unhandled_rejections
         (snd (serve Reference.parse (fun _ => Responds 30 response) req))
       = [].
Proof.
  intros req reset src response.
  exact (broken_body_ends_with_its_own_error Reference.parse
           (fun _ => Responds 30 response) req
           (mkURL "https" (Some "proxy.example") None (ListPath "/feed")
                  [("target", "https://example.com")] None)
           "https://example.com"
           (mkURL "https" (Some "example.com") None (ListPath "/") [] None)
           30 response src reset
           eq_refl eq_refl ltac:(discriminate) eq_refl eq_refl
           ltac:(discriminate) ltac:(split; discriminate) eq_refl eq_refl
           eq_refl ltac:(discriminate)).
Defined.

(** X5.  Whatever the upstream's body is and however it ends, a streamed
    answer never hands the caller more than [MAX_BYTES] bytes, and what it
    hands over is the beginning of the upstream's chunks, unchanged and in
    order. *)
Theorem relay_stays_within_the_limit parse upstream req url target targetUrl
    latency response :
  parse (req_url req) = inr url ->
  USP.get "target" (searchParams url) = Some target ->
  target <> "" ->
  parse target = inr targetUrl ->
  upstream (outbound_call req (derive_url url targetUrl))
  = Responds latency response ->
  latency <= MAX_DURATION_MS ->
  200 <= up_status response <= 599 ->
  null_body_status (up_status response) = false ->
  exists readable,
    fst (serve parse upstream req)
    = Ret (mkResponse (up_status response) (up_statusText response)
                      (up_headers response) (BodyStream readable))
    /\ total_length (delivered readable) <= MAX_BYTES
    /\ (forall src,
          up_body response = Some src ->
          exists rest, chunks_of src = delivered readable ++ rest)
    /\ (up_body response = None -> delivered readable = []).
Proof.
  intros Hurl Hget Hne Hparse Hup Hlat Hrange Hnull.
  exists (relayed None latency (up_body response)).
  split; [|split; [|split]].
  - exact (serve_streams parse upstream req url target targetUrl latency
             response Hurl Hget Hne Hparse Hup Hlat Hrange Hnull).
  - destruct (up_body response) as [src|]; simpl.
    + destruct (pipe_delivers_prefix_within_limit None latency 0
                  (src_chunks src) (src_end src)) as [Hsum _].
      { apply N.le_0_l. }
      rewrite N.add_0_l in Hsum. exact Hsum.
    + apply N.le_0_l.
  - intros src ->. simpl.
    destruct (pipe_delivers_prefix_within_limit None latency 0
                (src_chunks src) (src_end src)) as [_ Hprefix].
    { apply N.le_0_l. }
    exact Hprefix.
  - intros ->. reflexivity.
Qed.

(** X5 at a body of 10 MiB and one byte more, which then breaks. *)
Lemma relay_stays_within_the_limit_witness :
  let req :=
    mkRequest "https://proxy.example/big.bin?target=https://example.com"
              "GET" ∅ None in
  let src :=
    mkSource [(10, zeros 10485760); (10, zeros 1)]
             (SourceBreaks (TypeError "terminated")) in
  let response := mkUpstream 206 "Partial Content" ∅ (Some src) in
  exists readable,
    fst (serve Reference.parse (fun _ => Responds 30 response) req)
    = Ret (mkResponse 206 "Partial Content" ∅ (BodyStream readable))
    /\ total_length (delivered readable) <= MAX_BYTES
    /\ exists rest, [zeros 10485760; zeros 1] = delivered readable ++ rest.
Proof.
  intros req src response.
  destruct (relay_stays_within_the_limit Reference.parse
              (fun _ => Responds 30 response) req
              (mkURL "https" (Some "proxy.example") None (ListPath "/big.bin")
                     [("target", "https://example.com")] None)
              "https://example.com"
              (mkURL "https" (Some "example.com") None (ListPath "/") [] None)
              30 response
              eq_refl eq_refl ltac:(discriminate) eq_refl eq_refl
              ltac:(discriminate) ltac:(split; discriminate) eq_refl)
    as (readable & Hresp & Hbound & Hprefix & _).
  exists readable. split; [exact Hresp|]. split; [exact Hbound|].
  exact (Hprefix src eq_refl).
Defined.

(** ** The answer, whatever happens *)

(** X6.  Whenever the inbound URL parses, the handler returns a response,
    whatever the target is and whatever the upstream does, an upstream that
    never answers included: no exception leaves it and no rejection is left
    unhandled.  The response is either a plain-text 400 or 502, or the
    upstream's own status, status text and headers over the monitoring
    stream, after exactly one upstream call. *)
Theorem handler_answers_400_502_or_upstream parse upstream req url :
  parse (req_url req) = inr url ->
  exists resp,
    fst (serve parse upstream req) = Ret resp
    /\ unhandled_rejections (snd (serve parse upstream req)) = []
    /\ ((exists text,
           resp = text_response 400 text \/ resp = text_response 502 text)
        \/ (exists call latency response readable,
              fetch_calls (snd (serve parse upstream req)) = [call]
              /\ upstream call = Responds latency response
              /\ resp = mkResponse (up_status response)
                          (up_statusText response) (up_headers response)
                          (BodyStream readable))).
Proof.
  intros Hurl.
  destruct (falsy (USP.get "target" (searchParams url))) eqn:Hfalsy.
  { rewrite (serve_rejected parse upstream req url Hurl Hfalsy).
    eexists. split; [reflexivity|]. split; [reflexivity|].
    left. eexists. left. reflexivity. }
  apply falsy_false_inv in Hfalsy as (target & Hget & Hne).
  destruct (parse target) as [msg|targetUrl] eqn:Hparse.
  { rewrite (serve_unparsable parse upstream req url Hurl target Hget Hne msg
               Hparse).
    eexists. split; [reflexivity|]. split; [reflexivity|].
    left. eexists. right. reflexivity. }
  assert (Hlate :
    match upstream (outbound_call req (derive_url url targetUrl)) with
    | Responds latency _ | Fails latency _ => MAX_DURATION_MS < latency
    | Hangs => True
    end ->
    exists resp,
      fst (serve parse upstream req) = Ret resp
      /\ unhandled_rejections (snd (serve parse upstream req)) = []
      /\ ((exists text,
             resp = text_response 400 text \/ resp = text_response 502 text)
          \/ (exists call latency response readable,
                fetch_calls (snd (serve parse upstream req)) = [call]
                /\ upstream call = Responds latency response
                /\ resp = mkResponse (up_status response)
                            (up_statusText response) (up_headers response)
                            (BodyStream readable)))).
  { intros Hlate.
    rewrite (serve_timed_out parse upstream req url Hurl target Hget Hne
               targetUrl Hparse Hlate).
    eexists. split; [reflexivity|]. split; [reflexivity|].
    left. eexists. right. reflexivity. }
  destruct (upstream (outbound_call req (derive_url url targetUrl)))
    as [latency response|latency msg|] eqn:Hup.
  - destruct (N.le_gt_cases latency MAX_DURATION_MS) as [Hle|Hlt];
      [|exact (Hlate Hlt)].
    pose proof (serve_responded_world parse upstream req url target targetUrl
                  latency response Hurl Hget Hne Hparse Hup Hle) as Hworld.
    pose proof (serve_responded parse upstream req url Hurl target Hget Hne
                  targetUrl Hparse latency response Hup Hle) as Hrun.
    unfold unhandled_rejections, fetch_calls. rewrite Hworld.
    apply (f_equal fst) in Hrun. rewrite Hrun. clear Hrun Hworld.
    unfold try_catch, new_Response at 1.
    destruct ((up_status response <? 200) || (599 <? up_status response)).
    { eexists. split; [reflexivity|]. split; [reflexivity|].
      left. eexists. right. reflexivity. }
    destruct (null_body_status (up_status response)).
    { eexists. split; [reflexivity|]. split; [reflexivity|].
      left. eexists. right. reflexivity. }
    eexists. split; [reflexivity|]. split; [reflexivity|]. right.
    exists (outbound_call req (derive_url url targetUrl)), latency, response.
    eexists. split; [reflexivity|]. split; [exact Hup|reflexivity].
  - destruct (N.le_gt_cases latency MAX_DURATION_MS) as [Hle|Hlt];
      [|exact (Hlate Hlt)].
    rewrite (serve_network_failure parse upstream req url Hurl target Hget
               Hne targetUrl Hparse latency msg Hup Hle).
    eexists. split; [reflexivity|]. split; [reflexivity|].
    left. eexists. right. reflexivity.
  - exact (Hlate I).
Qed.

(** X6 at a request whose upstream never answers. *)
Lemma handler_answers_400_502_or_upstream_witness :
  let req :=
    mkRequest "https://proxy.example/foo?target=https://example.com/bar&x=1"
              "GET" ∅ None in
  exists resp,
    fst (serve Reference.parse (fun _ => Hangs) req) = Ret resp
    /\ unhandled_rejections (snd (serve Reference.parse (fun _ => Hangs) req))
       = [].
Proof.
  intros req.
  destruct (handler_answers_400_502_or_upstream Reference.parse
              (fun _ => Hangs) req
              (mkURL "https" (Some "proxy.example") None (ListPath "/foo")
                     [("target", "https://example.com/bar"); ("x", "1")] None)
              eq_refl)
    as (resp & Hresp & Hclean & _).
  exists resp. split; [exact Hresp|exact Hclean].
Defined.

(** X7.  A request that is forwarded makes these platform calls, in this
    order and no others: the two [new URL], [setTimeout] for
    [MAX_DURATION_MS], the log line, and one [fetch] that carries the
    inbound method and body as they came, the derived URL and headers,
    [redirect: 'follow'] and the abort signal.  [clearTimeout] follows
    exactly when the upstream has answered by the deadline: after a timeout
    or a network failure it is not called, and the [fetch] is never
    repeated. *)
Theorem platform_calls_of_a_forwarded_request parse upstream req url target
    targetUrl :
  parse (req_url req) = inr url ->
  USP.get "target" (searchParams url) = Some target ->
  target <> "" ->
  parse target = inr targetUrl ->
  let derived := derive_url url targetUrl in
  let call :=
    mkFetchCall derived (req_method req) (derive_headers req derived)
                (req_body req) "follow" true in
  events (snd (serve parse upstream req))
  = [EvNewURL (req_url req); EvNewURL target; EvSetTimeout 15000;
     EvConsoleLog "[Proxy] Forwarding to: " derived; EvFetch call]
    ++ match upstream call with
       | Responds latency _ =>
           if latency <=? 15000 then [EvClearTimeout] else []
       | Fails _ _ | Hangs => []
       end.
Proof.
  intros Hurl Hget Hne Hparse derived call.
  exact (serve_events parse upstream req url Hurl target Hget Hne targetUrl
           Hparse).
Qed.

(** X7 at a [POST] whose upstream refuses the connection. *)
Lemma platform_calls_of_a_forwarded_request_witness :
  let body := mkSource [(0, zeros 2)] SourceCloses in
  let req :=
    mkRequest "https://proxy.example/api?target=https://example.com"
              "POST" ∅ (Some body) in
  let derived :=
    mkURL "https" (Some "example.com") None (ListPath "/api") [] None in
  events (snd (serve Reference.parse (fun _ => Fails 40 "connection refused")
                     req))
  = [EvNewURL (req_url req); EvNewURL "https://example.com";
     EvSetTimeout 15000; EvConsoleLog "[Proxy] Forwarding to: " derived;
     EvFetch (mkFetchCall derived "POST" {[ "host" := "example.com" ]}
                          (Some body) "follow" true)].
Proof.
  intros body req derived.
  exact (platform_calls_of_a_forwarded_request Reference.parse
           (fun _ => Fails 40 "connection refused") req
           (mkURL "https" (Some "proxy.example") None (ListPath "/api")
                  [("target", "https://example.com")] None)
           "https://example.com"
           (mkURL "https" (Some "example.com") None (ListPath "/") [] None)
           eq_refl eq_refl ltac:(discriminate) eq_refl).
Defined.

(** ** More on the derived URL *)

(** X8.  The upstream call of a forwarded request goes to the target's own
    scheme, host and port, with the target's fragment: lines 28-35 change
    the path and the query only, and nothing of the inbound URL's origin
    reaches the derived URL.  A target whose path is opaque keeps even its
    path. *)
Theorem upstream_call_goes_to_the_target_origin parse upstream req url target
    targetUrl :
  parse (req_url req) = inr url ->
  USP.get "target" (searchParams url) = Some target ->
  target <> "" ->
  parse target = inr targetUrl ->
  exists call,
    fetch_calls (snd (serve parse upstream req)) = [call]
    /\ url_scheme (fc_url call) = url_scheme targetUrl
    /\ url_host (fc_url call) = url_host targetUrl
    /\ url_port (fc_url call) = url_port targetUrl
    /\ url_fragment (fc_url call) = url_fragment targetUrl
    /\ (forall p,
          url_path targetUrl = OpaquePath p ->
          url_path (fc_url call) = OpaquePath p).
Proof.
  intros Hurl Hget Hne Hparse.
  exists (outbound_call req (derive_url url targetUrl)). split.
  - exact (serve_fetches_once parse upstream req url Hurl target Hget Hne
             targetUrl Hparse).
  - simpl. rewrite derive_url_fold. unfold with_searchParams, set_pathname.
    destruct (url_path targetUrl) as [q|q] eqn:Hpath; simpl;
      repeat split; try reflexivity.
    + intros p [= ->]. exact Hpath.
    + intros p Heq. discriminate.
Qed.

(** X8 at a target on another scheme and port than the proxy. *)
Lemma upstream_call_goes_to_the_target_origin_witness :
  let req :=
    mkRequest "https://proxy.example/foo?target=http://example.com:8080/bar"
              "GET" ∅ None in
  exists call,
    fetch_calls (snd (serve Reference.parse (fun _ => Hangs) req)) = [call]
    /\ url_scheme (fc_url call) = "http"
    /\ url_host (fc_url call) = Some "example.com"
    /\ url_port (fc_url call) = Some 8080
    /\ url_fragment (fc_url call) = None.
Proof.
  intros req.
  destruct (upstream_call_goes_to_the_target_origin Reference.parse
              (fun _ => Hangs) req
              (mkURL "https" (Some "proxy.example") None (ListPath "/foo")
                     [("target", "http://example.com:8080/bar")] None)
              "http://example.com:8080/bar"
              (mkURL "http" (Some "example.com") (Some 8080) (ListPath "/bar")
                     [] None)
              eq_refl eq_refl ltac:(discriminate) eq_refl)
    as (call & Hcalls & Hscheme & Hhost & Hport & Hfragment & _).
  exists call. repeat split; assumption.
Defined.

Lemma filter_remove_unkept (keep : string -> bool) name l :
  keep name = false ->
  List.filter (fun p => keep (fst p)) (USP.remove name l)
  = List.filter (fun p => keep (fst p)) l.
Proof.
  intros Hname. induction l as [|[k v] l IH]; [reflexivity|].
  unfold USP.remove in *. simpl.
  destruct (String.eqb_spec k name) as [->|Hk]; simpl.
  - rewrite Hname. exact IH.
  - rewrite IH. reflexivity.
Qed.

Lemma filter_set_unkept (keep : string -> bool) name value l :
  keep name = false ->
  List.filter (fun p => keep (fst p)) (USP.set name value l)
  = List.filter (fun p => keep (fst p)) l.
Proof.
  intros Hname. induction l as [|[k v] l IH]; simpl.
  - rewrite Hname. reflexivity.
  - destruct (String.eqb_spec k name) as [->|Hk]; simpl.
    + rewrite Hname. apply filter_remove_unkept, Hname.
    + rewrite IH. reflexivity.
Qed.

(** X9.  The pairs of the target's query under names that no copied inbound
    parameter has come through the merge as one block: for any set of such
    names, the pairs with those names are the same before and after, in the
    same order and with their repetitions. *)
Theorem untouched_parameters_keep_their_order url targetUrl
    (keep : string -> bool) :
  (forall name value,
     List.In (name, value) (searchParams url) ->
     name <> "target" -> keep name = false) ->
  List.filter (fun p => keep (fst p)) (searchParams (derive_url url targetUrl))
  = List.filter (fun p => keep (fst p)) (searchParams targetUrl).
Proof.
  rewrite derive_url_query.
  generalize (searchParams targetUrl) as acc.
  induction (searchParams url) as [|[k v] q IH]; intros acc Hkeep.
  - reflexivity.
  - cbn [List.fold_left]. rewrite IH.
    + unfold copy_param. simpl.
      destruct (String.eqb_spec k "target") as [->|Hk]; [reflexivity|]. simpl.
      apply filter_set_unkept, (Hkeep k v); [left; reflexivity|exact Hk].
    + intros name value Hin. apply (Hkeep name value). right. exact Hin.
Qed.

(** X9 at a target whose query repeats [a] around an [x] that the inbound
    query overwrites. *)
Lemma untouched_parameters_keep_their_order_witness :
  let url :=
    mkURL "https" (Some "proxy.example") None (ListPath "/foo")
          [("target", "https://example.com"); ("x", "1"); ("y", "2");
           ("x", "3")] None in
  let targetUrl :=
    mkURL "https" (Some "example.com") None (ListPath "/")
          [("a", "1"); ("x", "0"); ("b", "2"); ("a", "3")] None in
  let keep := fun name => negb (String.eqb name "x" || String.eqb name "y") in
  searchParams (derive_url url targetUrl)
  = [("a", "1"); ("x", "3"); ("b", "2"); ("a", "3"); ("y", "2")]
  /\ List.filter (fun p => keep (fst p)) (searchParams (derive_url url targetUrl))
     = [("a", "1"); ("b", "2"); ("a", "3")].
Proof.
  intros url targetUrl keep. split; [reflexivity|].
  rewrite (untouched_parameters_keep_their_order url targetUrl keep);
    [reflexivity|].
  intros name value Hin Hname. simpl in Hin.
  repeat (destruct Hin as [[= <- <-]|Hin];
          [first [reflexivity | exfalso; apply Hname; reflexivity]|]).
  contradiction.
Defined.

(** ** The one exception that leaves the handler *)

(** X10.  [new URL(req.url)] on line 16 stands outside the [try]: if the
    inbound URL itself does not parse, its [TypeError] leaves the handler
    uncaught; no response is built, no timer is armed and no upstream call
    is made. *)
Theorem unparsable_inbound_url_throws parse upstream req msg :
  parse (req_url req) = inl msg ->
  serve parse upstream req
  = (Throw (TypeError msg), mkWorld 0 None false [EvNewURL (req_url req)]).
Proof.
  intros Hurl. unfold serve, handler, new_URL, bind, emit, throw. simpl.
  rewrite Hurl. reflexivity.
Qed.

(** X10 at a request line that is no absolute URL. *)
Lemma unparsable_inbound_url_throws_witness :
  serve Reference.parse (fun _ => Hangs)
        (mkRequest "/foo?target=https://example.com" "GET" ∅ None)
  = (Throw (TypeError "Invalid URL"),
     mkWorld 0 None false [EvNewURL "/foo?target=https://example.com"]).
Proof.
  exact (unparsable_inbound_url_throws Reference.parse (fun _ => Hangs)
           (mkRequest "/foo?target=https://example.com" "GET" ∅ None)
           "Invalid URL" eq_refl).
Defined.
